(** * Hydraulic valve diagnosis service: explanation and range pipeline

    A shallow embedding of [backend/app.py] and of the feature
    engineering of [backend/train_model.py].

    Conventions of the embedding:
    - a Python float is a [float]: NaN, an infinity, the negative zero, or
      a finite value kept as the rational it denotes; the code only
      compares and prints floats, which is exact on these;
    - floating-point arithmetic is never done by the code itself but by
      pandas: the row statistics and the percentile are collaborators,
      taken as section variables without assumption on their results;
    - a raised exception is the [Err] case of [result];
    - the classifier, the attributor and NumPy's [argsort] are
      collaborators too: the first two are fields of the process state,
      the last one a section variable with its contract;
    - Python dict objects that are shared by reference live in a heap. *)

From Stdlib Require Import QArith Qabs Qround ZArith Lia List Permutation Sorted.
From Stdlib Require Import Strings.String Strings.Ascii Numbers.DecimalString.
From Stdlib Require Lists.Finite.
From stdpp Require Import gmap strings list fin_maps.

Local Open Scope Z_scope.

(** ** Exceptions *)

Inductive exn :=
  | FileNotFoundError (msg : string)
  | IndexError (msg : string)
  | IndexingError (msg : string)
  | TypeError (msg : string)
  | OtherError (msg : string).

(** [str(e)] *)
Definition exn_str (e : exn) : string :=
  match e with
  | FileNotFoundError m | IndexError m | IndexingError m | TypeError m
  | OtherError m => m
  end.

Inductive result (A : Type) :=
  | Ok (a : A)
  | Err (e : exn).
Arguments Ok {A} a.
Arguments Err {A} e.

Definition rbind {A B} (r : result A) (k : A -> result B) : result B :=
  match r with
  | Ok a => k a
  | Err e => Err e
  end.

Notation "x <- c1 ;;; c2" := (rbind c1 (fun x => c2))
  (at level 100, c1 at next level, right associativity).

Fixpoint rmapM {A B} (f : A -> result B) (l : list A) : result (list B) :=
  match l with
  | [] => Ok []
  | a :: l' => b <- f a ;;; bs <- rmapM f l' ;;; Ok (b :: bs)
  end.

(** ** Floats *)

Module Num.

Inductive float :=
  | NaN
  | Inf (negative : bool)
  | NegZero
  | Fin (q : Q).

(** Where a float that is not NaN stands in the order: below, among or
    above the finite values, and at which rational. *)
Definition key (x : float) : option (Z * Q) :=
  match x with
  | NaN => None
  | Inf true => Some (-1, 0%Q)
  | Inf false => Some (1, 0%Q)
  | NegZero => Some (0, 0%Q)
  | Fin q => Some (0, q)
  end.

Definition key_ltb (a b : Z * Q) : bool :=
  (fst a <? fst b) || ((fst a =? fst b) && negb (Qle_bool (snd b) (snd a))).

Definition key_leb (a b : Z * Q) : bool :=
  (fst a <? fst b) || ((fst a =? fst b) && Qle_bool (snd a) (snd b)).

Definition key_eqb (a b : Z * Q) : bool :=
  (fst a =? fst b) && Qeq_bool (snd a) (snd b).

(** [x < y] *)
Definition ltb (x y : float) : bool :=
  match key x, key y with
  | Some a, Some b => key_ltb a b
  | _, _ => false
  end.

(** [x > y] *)
Definition gtb (x y : float) : bool := ltb y x.

(** [x <= y] *)
Definition leb (x y : float) : bool :=
  match key x, key y with
  | Some a, Some b => key_leb a b
  | _, _ => false
  end.

(** [x == y] *)
Definition eqb (x y : float) : bool :=
  match key x, key y with
  | Some a, Some b => key_eqb a b
  | _, _ => false
  end.

Definition is_nan (x : float) : bool :=
  match x with NaN => true | _ => false end.

Definition dec_of_N (n : N) : string :=
  NilEmpty.string_of_uint (N.to_uint n).

(** [|q| * 100] rounded to the nearest integer, ties to even: the
    correctly rounded two-decimal value that [format(q, '.2f')] prints. *)
Definition round_cents (q : Q) : Z :=
  let num := Z.abs (Qnum q) * 100 in
  let den := Z.pos (Qden q) in
  let d := num / den in
  let r := num mod den in
  match 2 * r ?= den with
  | Lt => d
  | Gt => d + 1
  | Eq => if Z.even d then d else d + 1
  end.

Definition two_digits (n : Z) : string :=
  if n <? 10 then "0" +:+ dec_of_N (Z.to_N n) else dec_of_N (Z.to_N n).

(** [f"{x:.2f}"] *)
Definition fmt2 (x : float) : string :=
  match x with
  | NaN => "nan"
  | Inf true => "-inf"
  | Inf false => "inf"
  | NegZero => "-0.00"
  | Fin q =>
      let c := round_cents q in
      (if Qnum q <? 0 then "-" else EmptyString)
        +:+ dec_of_N (Z.to_N (c / 100)) +:+ "." +:+ two_digits (c mod 100)
  end.

End Num.
Import Num.

(** ** Python string methods, on ASCII text *)

Module Str.

Definition is_upper (c : ascii) : bool :=
  let n := nat_of_ascii c in ((65 <=? n) && (n <=? 90))%nat.
Definition is_lower (c : ascii) : bool :=
  let n := nat_of_ascii c in ((97 <=? n) && (n <=? 122))%nat.
Definition is_cased (c : ascii) : bool := is_upper c || is_lower c.
Definition to_upper (c : ascii) : ascii :=
  if is_lower c then ascii_of_nat (nat_of_ascii c - 32) else c.
Definition to_lower (c : ascii) : ascii :=
  if is_upper c then ascii_of_nat (nat_of_ascii c + 32) else c.

(** [str.isspace] on one character. *)
Definition is_space (c : ascii) : bool :=
  let n := nat_of_ascii c in
  (((9 <=? n) && (n <=? 13)) || ((28 <=? n) && (n <=? 32)))%nat.

(** [s.replace(a, b)] for one-character [a] and [b]. *)
Fixpoint replace (a b : ascii) (s : string) : string :=
  match s with
  | EmptyString => EmptyString
  | String c s' => String (if Ascii.eqb c a then b else c) (replace a b s')
  end.

Fixpoint title_go (previous_is_cased : bool) (s : string) : string :=
  match s with
  | EmptyString => EmptyString
  | String c s' =>
      String (if previous_is_cased then to_lower c else to_upper c)
             (title_go (is_cased c) s')
  end.

(** [s.title()] *)
Definition title (s : string) : string := title_go false s.

(** [cur] is the word being read, in reverse. *)
Definition flush (cur : list ascii) : list string :=
  match cur with
  | [] => []
  | _ => [string_of_list_ascii (rev cur)]
  end.

Fixpoint split_go (cur : list ascii) (s : string) : list string :=
  match s with
  | EmptyString => flush cur
  | String c s' =>
      if is_space c then flush cur ++ split_go [] s'
      else split_go (c :: cur) s'
  end.

(** [s.split()] *)
Definition split (s : string) : list string := split_go [] s.

(** [sep.join(l)] *)
Fixpoint join (sep : string) (l : list string) : string :=
  match l with
  | [] => EmptyString
  | [x] => x
  | x :: l' => x +:+ sep +:+ join sep l'
  end.

Fixpoint prefixb (p s : string) : bool :=
  match p, s with
  | EmptyString, _ => true
  | String a p', String b s' => Ascii.eqb a b && prefixb p' s'
  | String _ _, EmptyString => false
  end.

(** [sub in s] *)
Fixpoint containsb (sub s : string) : bool :=
  prefixb sub s ||
  match s with
  | EmptyString => false
  | String _ s' => containsb sub s'
  end.

Definition contains (sub s : string) : Prop :=
  exists pre post, s = pre +:+ sub +:+ post.

End Str.

(** ** Explanation Generator *)

(** Line 64. *)
Definition feature_parts (feature_name : string) : list string :=
  Str.split (Str.title (Str.replace "_" " " feature_name)).

(** The three templates that render a range comparison. *)
Definition low_text (metric sensor : string) (value lower_bound upper_bound : float)
  : string :=
  "The **" +:+ metric +:+ " of " +:+ sensor
    +:+ "** was unusually **low** (" +:+ fmt2 value
    +:+ "), falling below the normal range of "
    +:+ fmt2 lower_bound +:+ " - " +:+ fmt2 upper_bound
    +:+ ". This could indicate a leak or a loss of system pressure.".

Definition high_text (metric sensor : string) (value lower_bound upper_bound : float)
  : string :=
  "The **" +:+ metric +:+ " of " +:+ sensor
    +:+ "** was unusually **high** (" +:+ fmt2 value
    +:+ "), exceeding the normal range of "
    +:+ fmt2 lower_bound +:+ " - " +:+ fmt2 upper_bound
    +:+ ". This might suggest a blockage or excessive system strain.".

Definition within_text (metric sensor : string) (value : float) : string :=
  "The **" +:+ metric +:+ " of " +:+ sensor
    +:+ "** (" +:+ fmt2 value
    +:+ ") was within its normal range but still a key factor in the model's decision, possibly due to its interaction with other sensor readings.".

Definition generic_text (metric sensor : string) : string :=
  "The " +:+ metric +:+ " of " +:+ sensor +:+ " was a significant factor.".

Definition generate_text_explanation
    (feature_name : string) (value : float)
    (normal_range_tuple : option (float * float)) : result string :=
  match feature_parts feature_name with
  | [] => Err (IndexError "list index out of range")
  | sensor :: rest =>
      let metric := Str.join " " rest in
      match normal_range_tuple with
      | None => Ok (generic_text metric sensor)
      | Some (lower_bound, upper_bound) =>
          if ltb value lower_bound then
            Ok (low_text metric sensor value lower_bound upper_bound)
          else if gtb value upper_bound then
            Ok (high_text metric sensor value lower_bound upper_bound)
          else
            Ok (within_text metric sensor value)
      end
  end.

(** ** pandas: tables, column-wise concatenation, row selection, quantiles *)

Module Frame.

(** A DataFrame over a [RangeIndex]: its columns in order, each with its
    name and its cells. *)
Definition table := list (string * list float).

Definition nrows (df : table) : nat :=
  fold_right Nat.max 0%nat (map (fun c => length (snd c)) df).

Definition pad (n : nat) (col : list float) : list float :=
  col ++ repeat NaN (n - length col).

(** [pd.concat(tables, axis=1)]: the default outer join on the row index
    keeps every row label; a table that has no such row gets [NaN]. *)
Definition concat (tables : list table) : table :=
  let n := fold_right Nat.max 0%nat (map nrows tables) in
  flat_map (map (fun c => (fst c, pad n (snd c)))) tables.

Fixpoint mask_filter (col : list float) (mask : list bool) : list float :=
  match col, mask with
  | x :: col', b :: mask' =>
      if b then x :: mask_filter col' mask' else mask_filter col' mask'
  | _, _ => []
  end.

(** [df[mask]] for a boolean Series [mask] over its own [RangeIndex]: the
    mask is reindexed to the rows of [df]; a row of [df] without a mask
    entry cannot be aligned. *)
Definition select_rows (df : table) (mask : list bool) : result table :=
  if (length mask <? nrows df)%nat
  then Err (IndexingError
    "Unalignable boolean Series provided as indexer (index of the boolean Series and of the indexed object do not match).")
  else Ok (map (fun c => (fst c, mask_filter (snd c) mask)) df).

(** [dropna]: the cells that are not NaN. *)
Definition dropna (col : list float) : list float :=
  List.filter (fun x => negb (is_nan x)) col.

End Frame.
Import Frame.

(** ** Insertion-ordered Python dicts with string keys *)

Fixpoint dict_set {V} (k : string) (v : V) (d : list (string * V))
  : list (string * V) :=
  match d with
  | [] => [(k, v)]
  | (k', v') :: d' =>
      if String.eqb k k' then (k, v) :: d' else (k', v') :: dict_set k v d'
  end.

Fixpoint dict_get {V} (k : string) (d : list (string * V)) : option V :=
  match d with
  | [] => None
  | (k', v') :: d' => if String.eqb k k' then Some v' else dict_get k d'
  end.

Definition dict_keys {V} (d : list (string * V)) : list string := map fst d.

(** ** Feature Extractor and Range Calculator *)

Definition sensors_to_process : list string :=
  ["PS1"; "PS2"; "PS3"; "TS1"; "TS2"; "VS1"].

(** What the data directory holds for one sensor: no file, a file that
    [read_csv] refuses, or the readings, one row per cycle. *)
Definition sensor_files := string -> option (result (list (list float))).

Section Extraction.

(** The row-wise reductions of pandas ([axis=1]). *)
Variables row_mean row_std row_min row_max : list float -> float.

(** The percentile that NumPy computes, in binary64 and with linear
    interpolation, for pandas: given the values left after [dropna], at
    least one, and the level. *)
Variable percentile : list float -> Q -> float.

(** [Series.quantile(q)]: missing cells are skipped, and a column with no
    value left gives NaN. *)
Definition quantile (col : list float) (q : Q) : float :=
  match dropna col with
  | [] => NaN
  | vs => percentile vs q
  end.

Definition sensor_features (sensor : string) (sensor_data : list (list float))
  : table :=
  [ (sensor +:+ "_mean", map row_mean sensor_data);
    (sensor +:+ "_std", map row_std sensor_data);
    (sensor +:+ "_min", map row_min sensor_data);
    (sensor +:+ "_max", map row_max sensor_data) ].

(** [app.py], lines 29 to 41. *)
Definition app_features_df (files : sensor_files) : result table :=
  all_features <-
    rmapM (fun sensor =>
             match files sensor with
             | None => Err (FileNotFoundError (sensor +:+ ".txt"))
             | Some r => sensor_data <- r ;;; Ok (sensor_features sensor sensor_data)
             end) sensors_to_process ;;;
  Ok (concat all_features).

(** [train_model.py], lines 27 to 52: a sensor without a file is skipped;
    [None] is the [exit()] taken when no sensor is left. *)
Fixpoint train_all_features (files : sensor_files) (sensors : list string)
  : result (list table) :=
  match sensors with
  | [] => Ok []
  | sensor :: sensors' =>
      match files sensor with
      | None => train_all_features files sensors'
      | Some r =>
          sensor_data <- r ;;;
          rest <- train_all_features files sensors' ;;;
          Ok (sensor_features sensor sensor_data :: rest)
      end
  end.

Definition train_features_df (files : sensor_files) : result (option table) :=
  all_features <- train_all_features files sensors_to_process ;;;
  match all_features with
  | [] => Ok None
  | _ => Ok (Some (concat all_features))
  end.

(** [app.py], lines 44 to 47. *)
Definition range_table (normal_data : table) : list (string * (float * float)) :=
  fold_left (fun normal_ranges c =>
               let lower_bound := quantile (snd c) (5 # 100) in
               let upper_bound := quantile (snd c) (95 # 100) in
               dict_set (fst c) (lower_bound, upper_bound) normal_ranges)
            normal_data [].

(** [app.py], lines 23 to 51; [profile] is the outcome of reading
    [profile.txt], reduced to its [valve_condition] column. Any exception
    leaves the dict empty. *)
Definition compute_normal_ranges
    (profile : result (list Z)) (files : sensor_files)
  : list (string * (float * float)) :=
  match
    (valve_condition <- profile ;;;
     features_df <- app_features_df files ;;;
     normal_data <- select_rows features_df (map (Z.eqb 100) valve_condition) ;;;
     Ok (range_table normal_data))
  with
  | Ok normal_ranges => normal_ranges
  | Err _ => []
  end.

End Extraction.

(** ** Prediction Service *)

Inductive jvalue :=
  | JStr (s : string)
  | JInt (z : Z)
  | JList (l : list string).

(** [model]: [predict] and [predict_proba] give the entry of row 0. *)
Record Classifier := {
  classes_ : list Z;
  model_predict : list float -> result Z;
  predict_proba : list float -> result (list Q)
}.

(** [explainer]: [explainer(df).values[0, :, class_index]] for the one-row
    frame [df], or the exception raised on the way. *)
Definition Explainer := list float -> nat -> result (list Q).

(** The module-level objects of [app.py]. [PREDICTION_MAP] holds references
    to its descriptor dicts, which live in [heap]. *)
Record state := {
  model : option Classifier;
  explainer : option Explainer;
  normal_ranges : list (string * (float * float));
  EXPECTED_FEATURES : list string;
  heap : gmap nat (gmap string jvalue);
  PREDICTION_MAP : gmap Z nat
}.

(** What [request.get_json()] does: raise, or return the parsed JSON value.
    For an array only its strings matter to the handler, any other
    element is [None]; the values of an object are taken to be mappings
    from names to numbers, as the request format has them. *)
Inductive request :=
  | GetJsonRaises (e : exn)
  | JsonNull
  | JsonBool (b : bool)
  | JsonNumber (integral : bool) (x : float)
  | JsonString (s : string)
  | JsonArray (items : list (option string))
  | JsonObject (data : gmap string (gmap string float)).

Record response := {
  body : gmap string jvalue;
  status : nat
}.

Definition error_body (msg : string) : gmap string jvalue :=
  {[ "error" := JStr msg ]}.

Definition dquote : string := String (ascii_of_nat 34) EmptyString.

Definition features_key_missing : string :=
  "Invalid input: " +:+ dquote +:+ "features" +:+ dquote +:+ " key missing".

(** [pd.DataFrame([features], columns=columns)], as its single row: a name
    that the mapping lacks gives a [NaN] cell. *)
Definition DataFrame_row (features : gmap string float) (columns : list string)
  : list float :=
  map (fun name => default NaN (features !! name)) columns.

Fixpoint index_of (c : Z) (l : list Z) : option nat :=
  match l with
  | [] => None
  | x :: l' => if Z.eqb x c then Some 0%nat else S <$> index_of c l'
  end.

(** [np.where(classes == c)[0][0]] *)
Definition where_first (classes : list Z) (c : Z) : result nat :=
  match index_of c classes with
  | Some i => Ok i
  | None => Err (IndexError "index 0 is out of bounds for axis 0 with size 0")
  end.

(** [l[i]], with the exception that this kind of sequence raises when the
    index is out of range. *)
Definition item {A} (out_of_range : exn) (l : list A) (i : nat) : result A :=
  match l !! i with
  | Some x => Ok x
  | None => Err out_of_range
  end.

Definition dec_of_nat (n : nat) : string := dec_of_N (N.of_nat n).

(** The exceptions of the three kinds of indexing that the handler does:
    a Python list, a NumPy array, [DataFrame.iloc]. *)
Definition list_index_error : exn := IndexError "list index out of range".

Definition array_index_error (i size : nat) : exn :=
  IndexError ("index " +:+ dec_of_nat i +:+ " is out of bounds for axis 0 with size "
                +:+ dec_of_nat size).

Definition iloc_index_error : exn :=
  IndexError "single positional indexer is out-of-bounds".

(** [x == 0], the only numbers that [not data] accepts. *)
Definition is_zero (x : float) : bool := eqb x (Fin 0).

(** The [TypeError] of ['features' in data] for a number or a boolean. *)
Definition not_iterable (type_name : string) : exn :=
  TypeError ("argument of type '" +:+ type_name +:+ "' is not iterable").

(** [l[-k:]] *)
Definition last_n {A} (k : nat) (l : list A) : list A :=
  skipn (length l - k) l.

(** The descriptor dict that [PREDICTION_MAP] shows for a code. *)
Definition descriptor (st : state) (code : Z) : option (gmap string jvalue) :=
  l ← PREDICTION_MAP st !! code; heap st !! l.

(** The attribution magnitude of feature [i]. *)
Definition magnitude (shap_values : list Q) (i : nat) : Q :=
  Qabs (nth i shap_values 0%Q).

(** Exchanging the scores of the features [a] and [b]. *)
Definition transpose (a b i : nat) : nat :=
  if (i =? a)%nat then b else if (i =? b)%nat then a else i.

Definition swap_scores (a b : nat) (shap_values : list Q) : list Q :=
  map (fun i => nth (transpose a b i) shap_values 0%Q)
      (seq 0 (length shap_values)).

(** [response.update({...})], lines 113 to 117. *)
Definition update (predicted_class : Z) (confidence : Q)
    (explanations : list string) (response : gmap string jvalue)
  : gmap string jvalue :=
  <["explanations" := JList explanations]>
    (<["prediction_code" := JInt predicted_class]>
       (<["confidence" := JStr (fmt2 (Fin confidence))]> response)).

Definition not_loaded : response :=
  {| body := error_body "Model or Explainer not loaded"; status := 500 |}.

Section Service.

(** [np.argsort] *)
Variable argsort : list Q -> list nat.

(** [np.argsort(abs_shap_values)[-3:][::-1]] *)
Definition top_indices (shap_values_for_class : list Q) : list nat :=
  let abs_shap_values := map Qabs shap_values_for_class in
  rev (last_n 3 (argsort abs_shap_values)).

(** The body of the loop of lines 104 to 110, for one index. *)
Definition explain_one (st : state) (features_df : list float) (i : nat)
  : result string :=
  feature_name <- item list_index_error (EXPECTED_FEATURES st) i ;;;
  value <- item iloc_index_error features_df i ;;;
  let normal_range := dict_get feature_name (normal_ranges st) in
  generate_text_explanation feature_name value normal_range.

(** Lines 103 to 110. *)
Definition explain (st : state) (features_df : list float) (top : list nat)
  : result (list string) :=
  rmapM (explain_one st features_df) top.

(** Lines 89 to 110: what the request computes before the response is
    assembled. *)
Definition diagnose (st : state) (m : Classifier) (ex : Explainer)
    (features : gmap string float) : result (Z * Q * list string) :=
  let features_df := DataFrame_row features (EXPECTED_FEATURES st) in
  predicted_class <- model_predict m features_df ;;;
  prediction_proba <- predict_proba m features_df ;;;
  class_index <- where_first (classes_ m) predicted_class ;;;
  confidence <- item (array_index_error class_index (length prediction_proba))
                     prediction_proba class_index ;;;
  shap_values_for_class <- ex features_df class_index ;;;
  explanations <- explain st features_df (top_indices shap_values_for_class) ;;;
  Ok (predicted_class, confidence, explanations).

(** Lines 112 to 118. [PREDICTION_MAP.get] hands out the descriptor dict
    itself, so [update] writes into the object the map refers to; a code
    without descriptor gets a new empty dict. *)
Definition assemble (st : state) (predicted_class : Z) (confidence : Q)
    (explanations : list string) : response * state :=
  let '(l, h) :=
    match PREDICTION_MAP st !! predicted_class with
    | Some l => (l, heap st)
    | None => let l := fresh (dom (heap st)) in (l, <[l := ∅]> (heap st))
    end in
  let h' := alter (update predicted_class confidence explanations) l h in
  ({| body := default ∅ (h' !! l); status := 200 |},
   {| model := model st; explainer := explainer st;
      normal_ranges := normal_ranges st;
      EXPECTED_FEATURES := EXPECTED_FEATURES st;
      heap := h'; PREDICTION_MAP := PREDICTION_MAP st |}).

(** Line 87. *)
Definition bad_request (st : state) : response * state :=
  ({| body := error_body features_key_missing; status := 400 |}, st).

(** Lines 119 to 121. *)
Definition server_error (e : exn) (st : state) : response * state :=
  ({| body := error_body (exn_str e); status := 500 |}, st).

(** The [/predict] handler. [not data] holds of null, false, zero, the
    empty string, the empty array and the empty object; ['features' in
    data] is a substring test on a string, a membership test on an array
    and a key test on an object, and raises on a number or a boolean;
    [data['features']] raises on a string and on an array. The texts of
    these [TypeError]s are those of CPython 3.12. *)
Definition predict (st : state) (req : request) : response * state :=
  match model st, explainer st with
  | Some m, Some ex =>
      match req with
      | GetJsonRaises e => server_error e st
      | JsonNull => bad_request st
      | JsonBool b =>
          if b then server_error (not_iterable "bool") st else bad_request st
      | JsonNumber integral x =>
          if is_zero x then bad_request st
          else server_error (not_iterable (if integral then "int" else "float")) st
      | JsonString s =>
          if Str.containsb "features" s
          then server_error
                 (TypeError "string indices must be integers, not 'str'") st
          else bad_request st
      | JsonArray items =>
          if existsb (fun x => match x with
                               | Some s => String.eqb s "features"
                               | None => false
                               end) items
          then server_error
                 (TypeError "list indices must be integers or slices, not str") st
          else bad_request st
      | JsonObject data =>
          match data !! "features" with
          | None => bad_request st
          | Some features =>
              match diagnose st m ex features with
              | Ok (predicted_class, confidence, explanations) =>
                  assemble st predicted_class confidence explanations
              | Err e => server_error e st
              end
          end
      end
  | _, _ => (not_loaded, st)
  end.

End Service.

(** ** Start-up *)

Definition descriptor_dict (label severity : string) (remedy : list string)
  : gmap string jvalue :=
  <["label" := JStr label]>
    (<["severity" := JStr severity]> {[ "remedy" := JList remedy ]}).

Definition initial_heap : gmap nat (gmap string jvalue) :=
  <[0%nat := descriptor_dict "Optimal" "low" ["System is operating optimally."]]>
  (<[1%nat := descriptor_dict "Small Lag" "medium"
       ["Inspect valve for contamination."; "Check pilot pressure."]]>
  (<[2%nat := descriptor_dict "Severe Lag" "high"
       ["Schedule valve inspection."; "Check for internal leakage.";
        "Verify solenoid signal."]]>
  {[ 3%nat := descriptor_dict "Close to Total Failure" "critical"
       ["System shutdown recommended."; "Replace valve immediately."] ]})).

Definition initial_PREDICTION_MAP : gmap Z nat :=
  <[100 := 0%nat]> (<[90 := 1%nat]> (<[80 := 2%nat]> {[ 73 := 3%nat ]})).

(** Lines 13 to 20: only a missing file is caught; any other exception
    leaves the module, and the process, at import time. *)
Definition load_model
    (joblib_load : result Classifier)
    (TreeExplainer : Classifier -> result Explainer)
  : result (option Classifier * option Explainer) :=
  match (m <- joblib_load ;;; ex <- TreeExplainer m ;;; Ok (m, ex)) with
  | Ok (m, ex) => Ok (Some m, Some ex)
  | Err (FileNotFoundError _) => Ok (None, None)
  | Err e => Err e
  end.

Section Startup.

Variables row_mean row_std row_min row_max : list float -> float.
Variable percentile : list float -> Q -> float.

(** The module body of [app.py]; [Err] when the import fails, so that no
    service comes up. *)
Definition startup
    (joblib_load : result Classifier)
    (TreeExplainer : Classifier -> result Explainer)
    (profile : result (list Z)) (files : sensor_files) : result state :=
  loaded <- load_model joblib_load TreeExplainer ;;;
  let ranges :=
    compute_normal_ranges row_mean row_std row_min row_max percentile
                          profile files in
  Ok {| model := fst loaded; explainer := snd loaded;
        normal_ranges := ranges;
        EXPECTED_FEATURES := dict_keys ranges;
        heap := initial_heap; PREDICTION_MAP := initial_PREDICTION_MAP |}.

End Startup.

(** ** A reference [argsort] and sample collaborators *)

Fixpoint insert_index (v : list Q) (i : nat) (l : list nat) : list nat :=
  match l with
  | [] => [i]
  | j :: l' =>
      if Qle_bool (nth i v 0%Q) (nth j v 0%Q) && negb (Qeq_bool (nth i v 0%Q) (nth j v 0%Q))
      then i :: l
      else j :: insert_index v i l'
  end.

(** A stable sort of the indices of [v] by value. *)
Definition stable_argsort (v : list Q) : list nat :=
  fold_left (fun l i => insert_index v i l) (seq 0 (length v)) [].


(** Serving a sequence of requests, one after the other. *)
Fixpoint serve (argsort : list Q -> list nat) (st : state) (reqs : list request)
  : list response * state :=
  match reqs with
  | [] => ([], st)
  | req :: reqs' =>
      let '(r, st1) := predict argsort st req in
      let '(rs, st2) := serve argsort st1 reqs' in
      (r :: rs, st2)
  end.

(** Every reference held by [PREDICTION_MAP] points to a dict of the heap. *)
Definition heap_closed (st : state) : Prop :=
  map_Forall (fun _ l => is_Some (heap st !! l)) (PREDICTION_MAP st).

(** What [np.argsort] guarantees: the indices of [v], each once, in
    ascending order of value. The order among equal values is left open. *)
Definition argsort_contract (argsort : list Q -> list nat) : Prop :=
  forall v,
    Permutation (argsort v) (seq 0 (length v)) /\
    StronglySorted (fun i j => (nth i v 0 <= nth j v 0)%Q) (argsort v).

(** Sample data: a five-feature service whose classifier answers a fixed
    code with fixed probabilities. *)
Module Sample.

Definition fz (z : Z) : float := Fin (inject_Z z).

Definition classifier (code : Z) : Classifier :=
  {| classes_ := [73; 80; 90; 100];
     model_predict := fun _ => Ok code;
     predict_proba := fun _ => Ok [1 # 10; 2 # 10; 4 # 10; 3 # 10] |}.

(** A classifier that refuses a row with a missing cell. *)
Definition strict (code : Z) : Classifier :=
  {| classes_ := [73; 80; 90; 100];
     model_predict := fun row =>
       if existsb is_nan row then Err (OtherError "Input X contains NaN.")
       else Ok code;
     predict_proba := fun _ => Ok [1 # 10; 2 # 10; 4 # 10; 3 # 10] |}.

(** A classifier whose only class has no descriptor. *)
Definition unlisted : Classifier :=
  {| classes_ := [55];
     model_predict := fun _ => Ok 55;
     predict_proba := fun _ => Ok [1%Q] |}.

Definition shap_values : list Q := [1 # 10; (-5) # 10; 3 # 10; 4 # 10; (-2) # 10].

Definition attributor : Explainer := fun _ _ => Ok shap_values.

Definition names : list string :=
  ["PS1_mean"; "PS1_std"; "PS1_min"; "PS1_max"; "PS2_mean"].

Definition service (m : Classifier) : state :=
  {| model := Some m; explainer := Some attributor;
     normal_ranges := map (fun name => (name, (fz 10, fz 20))) names;
     EXPECTED_FEATURES := names;
     heap := initial_heap; PREDICTION_MAP := initial_PREDICTION_MAP |}.

(** A request that omits [PS1_min] and [PS2_mean]. *)
Definition partial_features : gmap string float :=
  <["PS1_mean" := fz 5]> (<["PS1_std" := fz 50]> {[ "PS1_max" := fz 15 ]}).

Definition partial_request : request :=
  JsonObject {[ "features" := partial_features ]}.

Definition full_features : gmap string float :=
  <["PS1_min" := fz 12]> (<["PS2_mean" := fz 30]> partial_features).

Definition full_request : request :=
  JsonObject {[ "features" := full_features ]}.

Definition const_one : list float -> float := fun _ => Fin 1.

Fixpoint insert_sorted (x : Q) (l : list Q) : list Q :=
  match l with
  | [] => [x]
  | y :: l' => if Qle_bool x y then x :: l else y :: insert_sorted x l'
  end.

Definition sort_values (l : list Q) : list Q := fold_right insert_sorted [] l.

(** The finite values of a list, when all its values are finite. *)
Fixpoint rationals (vs : list float) : option (list Q) :=
  match vs with
  | [] => Some []
  | Fin q :: vs' => cons q <$> rationals vs'
  | NegZero :: vs' => cons 0%Q <$> rationals vs'
  | _ :: _ => None
  end.

(** Linear interpolation between the two order statistics around the
    virtual index [q * (n - 1)], in exact arithmetic. *)
Definition interpolate (xs : list Q) (q : Q) : Q :=
  let n := Z.of_nat (length xs) in
  let pos := (q * inject_Z (n - 1))%Q in
  let i := Qfloor pos in
  let frac := (pos - inject_Z i)%Q in
  let a := nth (Z.to_nat i) xs 0%Q in
  let b := nth (Z.to_nat (Z.min (i + 1) (n - 1))) xs 0%Q in
  (a + (b - a) * frac)%Q.

(** A stand-in for the percentile of the library: the exact value that
    the binary64 one approximates on finite data. *)
Definition percentile (vs : list float) (q : Q) : float :=
  match rationals vs with
  | Some (x :: xs) => Fin (interpolate (sort_values (x :: xs)) q)
  | _ => NaN
  end.


(** [PS1] recorded two cycles, every other sensor one. *)
Definition uneven_files : sensor_files :=
  fun sensor =>
    if String.eqb sensor "PS1"
    then Some (Ok [[fz 1; fz 2]; [fz 3; fz 4]])
    else Some (Ok [[fz 5; fz 6]]).

Definition even_files : sensor_files :=
  fun _ => Some (Ok [[fz 1; fz 2]; [fz 3; fz 4]]).

End Sample.

(** ** Notions used to state further properties *)

(** A character that [replace('_', ' ')] followed by [split()] discards. *)
Definition blank (c : ascii) : bool := Ascii.eqb c "_" || Str.is_space c.

Fixpoint all_chars (P : ascii -> bool) (s : string) : bool :=
  match s with
  | EmptyString => true
  | String c s' => P c && all_chars P s'
  end.

(** The column names that the six sensors give, in the order of the loop. *)
Definition canonical_features : list string :=
  flat_map (fun sensor => [sensor +:+ "_mean"; sensor +:+ "_std";
                           sensor +:+ "_min"; sensor +:+ "_max"])
           sensors_to_process.

(** [os.path.exists] on the file of a sensor. *)
Definition has_file (files : sensor_files) (sensor : string) : bool :=
  match files sensor with
  | Some _ => true
  | None => false
  end.

(** The parsed bodies that line 86 refuses: those that are false in a
    condition (null, false, zero, the empty string, array or object) and
    the strings, arrays and objects that do not contain ['features']. *)
Definition lacks_features (req : request) : Prop :=
  match req with
  | GetJsonRaises _ => False
  | JsonNull => True
  | JsonBool b => b = false
  | JsonNumber _ x => is_zero x = true
  | JsonString s => ~ Str.contains "features" s
  | JsonArray items => ~ In (Some "features") items
  | JsonObject data => data !! "features" = None
  end.

(** A descriptor dict without the three keys that a request writes. *)
Definition static_part (d : gmap string jvalue) : gmap string jvalue :=
  delete "explanations" (delete "prediction_code" (delete "confidence" d)).

(** Two states that differ at most in what earlier requests wrote into the
    descriptor dicts, or allocated beside them. *)
Definition same_service (st st' : state) : Prop :=
  model st' = model st /\ explainer st' = explainer st /\
  normal_ranges st' = normal_ranges st /\
  EXPECTED_FEATURES st' = EXPECTED_FEATURES st /\
  PREDICTION_MAP st' = PREDICTION_MAP st /\
  forall code l, PREDICTION_MAP st !! code = Some l ->
    static_part <$> heap st' !! l = static_part <$> heap st !! l.

(** No descriptor dict has an [error] entry. *)
Definition no_error_key (st : state) : Prop :=
  map_Forall (fun _ d => d !! "error" = None) (heap st).

(** * Properties *)

(** ** Strings *)

Lemma append_assoc (a b c : string) : (a +:+ b) +:+ c = a +:+ (b +:+ c).
Proof.
  induction a as [|x a IH]; [reflexivity |].
  change (String x ((a +:+ b) +:+ c) = String x (a +:+ (b +:+ c))).
  now rewrite IH.
Qed.

Lemma prefixb_spec (p s : string) :
  Str.prefixb p s = true <-> exists post, s = p +:+ post.
Proof.
  revert s. induction p as [|a p IH]; intros s; simpl.
  - split; [intros _; now exists s | reflexivity].
  - destruct s as [|b s].
    + split; [discriminate | intros [post H]; discriminate].
    + rewrite andb_true_iff, Ascii.eqb_eq, IH. split.
      * intros [-> [post ->]]. now exists post.
      * intros [post H]. injection H as -> ->. split; [reflexivity | now exists post].
Qed.

Lemma containsb_spec (sub s : string) :
  Str.containsb sub s = true <-> Str.contains sub s.
Proof.
  unfold Str.contains. induction s as [|c s IH].
  - simpl. rewrite orb_false_r, prefixb_spec. split.
    + intros [post H]. now exists EmptyString, post.
    + intros [pre [post H]]. destruct pre; [now exists post | discriminate].
  - cbn [Str.containsb]. rewrite orb_true_iff, prefixb_spec, IH. split.
    + intros [[post H] | [pre [post H]]].
      * now exists EmptyString, post.
      * exists (String c pre), post. simpl. now rewrite H.
    + intros [pre [post H]]. destruct pre as [|x pre].
      * left. now exists post.
      * right. injection H as _ H. now exists pre, post.
Qed.

Lemma contains_here (sub post : string) : Str.contains sub (sub +:+ post).
Proof. now exists EmptyString, post. Qed.

Lemma contains_app_r (sub s t : string) :
  Str.contains sub t -> Str.contains sub (s +:+ t).
Proof.
  intros [pre [post ->]]. exists (s +:+ pre), post. now rewrite append_assoc.
Qed.

Lemma contains_app_l (sub s t : string) :
  Str.contains sub s -> Str.contains sub (s +:+ t).
Proof.
  intros [pre [post ->]]. exists pre, (post +:+ t).
  now rewrite !append_assoc.
Qed.

Lemma contains_here3 (a b c t : string) :
  Str.contains (a +:+ b +:+ c) (a +:+ b +:+ c +:+ t).
Proof. exists EmptyString, t. now rewrite !append_assoc. Qed.

Lemma contains_literal (sub lit t : string) :
  Str.containsb sub lit = true -> Str.contains sub (lit +:+ t).
Proof. intros H. apply contains_app_l. now apply containsb_spec. Qed.

Create HintDb text discriminated.
#[local] Hint Resolve contains_here contains_app_r : text.

(** ** Explanation Generator *)

Lemma low_text_contains metric sensor value lo hi :
  Str.contains "unusually **low**" (low_text metric sensor value lo hi) /\
  Str.contains (fmt2 value) (low_text metric sensor value lo hi) /\
  Str.contains (fmt2 lo +:+ " - " +:+ fmt2 hi) (low_text metric sensor value lo hi).
Proof.
  unfold low_text. repeat split.
  - do 4 apply contains_app_r. now apply contains_literal.
  - auto 8 with text.
  - do 7 apply contains_app_r. apply contains_here3.
Qed.

Lemma high_text_contains metric sensor value lo hi :
  Str.contains "unusually **high**" (high_text metric sensor value lo hi) /\
  Str.contains (fmt2 value) (high_text metric sensor value lo hi) /\
  Str.contains (fmt2 lo +:+ " - " +:+ fmt2 hi) (high_text metric sensor value lo hi).
Proof.
  unfold high_text. repeat split.
  - do 4 apply contains_app_r. now apply contains_literal.
  - auto 8 with text.
  - do 7 apply contains_app_r. apply contains_here3.
Qed.

Lemma within_text_contains metric sensor value :
  Str.contains "within its normal range" (within_text metric sensor value) /\
  Str.contains (fmt2 value) (within_text metric sensor value).
Proof.
  unfold within_text. split.
  - do 6 apply contains_app_r. now apply containsb_spec.
  - auto 8 with text.
Qed.

Lemma key_ltb_false_iff (a b : Z * Q) : key_ltb a b = false <-> key_leb b a = true.
Proof.
  destruct a as [i x], b as [j y]. unfold key_ltb, key_leb. simpl.
  destruct (Z.ltb_spec i j), (Z.ltb_spec j i), (Z.eqb_spec i j), (Z.eqb_spec j i);
    simpl; try lia; try tauto; try (split; congruence).
  rewrite negb_false_iff. tauto.
Qed.

Lemma key_leb_trans (a b c : Z * Q) :
  key_leb a b = true -> key_leb b c = true -> key_leb a c = true.
Proof.
  destruct a as [i x], b as [j y], c as [k z]. unfold key_leb. simpl.
  rewrite !orb_true_iff, !andb_true_iff, !Z.ltb_lt, !Z.eqb_eq, !Qle_bool_iff.
  intros [H1 | [H1 H1']] [H2 | [H2 H2']]; try (left; lia).
  right. split; [lia | eapply Qle_trans; eauto].
Qed.

Lemma key_eqb_leb (a b : Z * Q) :
  key_eqb a b = true -> key_leb a b = true /\ key_leb b a = true.
Proof.
  destruct a as [i x], b as [j y]. unfold key_eqb, key_leb. simpl.
  rewrite !andb_true_iff, !orb_true_iff, !andb_true_iff, !Z.eqb_eq,
    Qeq_bool_iff, !Qle_bool_iff.
  intros [-> H]. rewrite H. split; right; split; auto; apply Qle_refl.
Qed.

Lemma ltb_false_iff (x y : float) :
  ltb x y = false <-> (is_nan x || is_nan y = true) \/ leb y x = true.
Proof.
  unfold ltb, leb.
  destruct x as [|[]| |a], y as [|[]| |b]; simpl key; simpl is_nan;
    rewrite ?key_ltb_false_iff; simpl orb; try tauto;
    split; try tauto; try (intros [H | H]; [discriminate | exact H]); now right.
Qed.

Lemma leb_trans (x y z : float) : leb x y = true -> leb y z = true -> leb x z = true.
Proof.
  unfold leb. destruct (key x), (key y), (key z); try discriminate.
  apply key_leb_trans.
Qed.

Lemma eqb_leb (x y : float) : eqb x y = true -> leb x y = true /\ leb y x = true.
Proof.
  unfold eqb, leb. destruct (key x), (key y); try discriminate.
  apply key_eqb_leb.
Qed.

Lemma ltb_nan (x y : float) :
  is_nan x = true \/ is_nan y = true -> ltb x y = false.
Proof.
  unfold ltb. intros [H | H]; [destruct x | destruct y]; try discriminate;
    simpl; [reflexivity | now destruct (key x)].
Qed.

Lemma generate_text_explanation_returns
    (feature_name : string) (value : float) (range : option (float * float)) :
  feature_parts feature_name <> [] ->
  exists text, generate_text_explanation feature_name value range = Ok text.
Proof.
  intros H. unfold generate_text_explanation.
  destruct (feature_parts feature_name) as [|sensor rest]; [congruence |].
  destruct range as [[lo hi]|]; [| now eexists].
  destruct (ltb value lo); [now eexists |].
  destruct (gtb value hi); now eexists.
Qed.

(** C2, as the code has it. For every feature name with at least one token
    once underscores are spaces, the generator returns a text: without a
    range it is the generic significant-factor sentence, in which neither
    the value nor a bound occurs; with a range, a value below the lower
    bound gives a text containing "unusually **low**" (the word is set in
    Markdown emphasis), the value and the range; otherwise a value above
    the upper bound gives "unusually **high**" with the value and the
    range; otherwise the text contains "within its normal range" and the
    value. *)
Theorem generate_text_explanation_cases
    (feature_name : string) (value : float) (range : option (float * float))
    (sensor : string) (rest : list string) :
  feature_parts feature_name = sensor :: rest ->
  exists text,
    generate_text_explanation feature_name value range = Ok text /\
    match range with
    | None => text = generic_text (Str.join " " rest) sensor
    | Some (lo, hi) =>
        (ltb value lo = true ->
           Str.contains "unusually **low**" text /\
           Str.contains (fmt2 value) text /\
           Str.contains (fmt2 lo +:+ " - " +:+ fmt2 hi) text) /\
        (ltb value lo = false -> gtb value hi = true ->
           Str.contains "unusually **high**" text /\
           Str.contains (fmt2 value) text /\
           Str.contains (fmt2 lo +:+ " - " +:+ fmt2 hi) text) /\
        (ltb value lo = false -> gtb value hi = false ->
           Str.contains "within its normal range" text /\
           Str.contains (fmt2 value) text)
    end.
Proof.
  intros Hparts. unfold generate_text_explanation. rewrite Hparts.
  destruct range as [[lo hi]|].
  - destruct (ltb value lo) eqn:Hlo; [|destruct (gtb value hi) eqn:Hhi];
      eexists; (split; [reflexivity |]); repeat split; try discriminate; intros.
    all: first [ apply low_text_contains | apply high_text_contains
               | apply within_text_contains ].
  - eexists. split; reflexivity.
Qed.

Lemma generate_text_explanation_cases_witness :
  feature_parts "PS1_mean" = ["Ps1"; "Mean"] /\
  exists text,
    generate_text_explanation "PS1_mean" (Sample.fz 5)
      (Some (Sample.fz 10, Sample.fz 20)) = Ok text /\
    Str.contains "unusually **low**" text /\ Str.contains "5.00" text /\
    Str.contains "10.00 - 20.00" text.
Proof.
  split; [reflexivity |].
  destruct (generate_text_explanation_cases "PS1_mean" (Sample.fz 5)
              (Some (Sample.fz 10, Sample.fz 20)) "Ps1" ["Mean"] eq_refl)
    as [text [Htext [Hlow _]]].
  exists text. split; [exact Htext |]. exact (Hlow eq_refl).
Defined.

(** C2, as stated, fails on the spec's own sample: for value 50 and range
    (10, 20) the value is above the upper bound, yet the words "unusually
    high" do not occur in the text, which reads "unusually **high**"; and a
    feature name without any token has no text at all. *)
Lemma generate_text_explanation_plain_words_absent :
  gtb (Sample.fz 50) (Sample.fz 20) = true /\
  (exists text,
     generate_text_explanation "PS1_mean" (Sample.fz 50)
       (Some (Sample.fz 10, Sample.fz 20)) = Ok text /\
     ~ Str.contains "unusually high" text) /\
  generate_text_explanation "_" (Sample.fz 50)
    (Some (Sample.fz 10, Sample.fz 20))
  = Err (IndexError "list index out of range").
Proof.
  split; [reflexivity |]. split; [| reflexivity].
  eexists. split; [reflexivity |].
  intros H. apply containsb_spec in H. vm_compute in H. discriminate.
Qed.

(** C10. A value equal to the lower or to the upper bound of a normal range
    (whose bounds are in order) is rendered by the within-range template:
    both comparisons are strict. *)
Theorem boundary_value_is_within
    (feature_name : string) (value lo hi : float)
    (sensor : string) (rest : list string) :
  feature_parts feature_name = sensor :: rest ->
  leb lo hi = true ->
  eqb value lo = true \/ eqb value hi = true ->
  generate_text_explanation feature_name value (Some (lo, hi))
  = Ok (within_text (Str.join " " rest) sensor value) /\
  Str.contains "within its normal range but still a key factor"
    (within_text (Str.join " " rest) sensor value).
Proof.
  intros Hparts Hle Heq. split.
  - unfold generate_text_explanation. rewrite Hparts.
    assert (Hlo : ltb value lo = false /\ gtb value hi = false).
    { unfold gtb. rewrite !ltb_false_iff.
      destruct Heq as [H | H]; apply eqb_leb in H as [H1 H2]; split; right;
        eauto using leb_trans. }
    destruct Hlo as [-> ->]. reflexivity.
  - unfold within_text. do 6 apply contains_app_r. now apply containsb_spec.
Qed.

Lemma boundary_value_is_within_witness :
  generate_text_explanation "PS1_mean" (Sample.fz 20)
    (Some (Sample.fz 10, Sample.fz 20))
  = Ok (within_text "Mean" "Ps1" (Sample.fz 20)) /\
  Str.contains "within its normal range but still a key factor"
    (within_text "Mean" "Ps1" (Sample.fz 20)).
Proof.
  exact (boundary_value_is_within "PS1_mean" (Sample.fz 20) (Sample.fz 10)
           (Sample.fz 20) "Ps1" ["Mean"] eq_refl eq_refl (or_intror eq_refl)).
Defined.

(** ** Feature Extractor *)

Lemma rmapM_ok {A B} (f : A -> result B) (g : A -> B) (l : list A) :
  (forall a, In a l -> f a = Ok (g a)) -> rmapM f l = Ok (map g l).
Proof.
  induction l as [|a l IH]; intros H; simpl; [reflexivity |].
  rewrite (H a) by now left. simpl. rewrite IH; [reflexivity |].
  intros b Hb. apply H. now right.
Qed.

Lemma pad_length (n : nat) (col : list float) :
  length (pad n col) = Nat.max n (length col).
Proof. unfold pad. rewrite length_app, repeat_length. lia. Qed.

Lemma max_list_ge (l : list nat) (x : nat) :
  In x l -> (x <= fold_right Nat.max 0%nat l)%nat.
Proof.
  induction l as [|y l IH]; simpl; [intros [] |].
  intros [-> | H]; [lia | specialize (IH H); lia].
Qed.

Lemma nrows_ge (df : table) (c : string * list float) :
  In c df -> (length (snd c) <= nrows df)%nat.
Proof.
  intros H. apply max_list_ge. apply in_map_iff. now exists c.
Qed.

Lemma concat_In (tables : list table) (t : table) (c : string * list float) :
  In t tables -> In c t ->
  In (fst c, pad (fold_right Nat.max 0%nat (map nrows tables)) (snd c)) (concat tables).
Proof.
  intros Ht Hc. unfold concat. apply in_flat_map. exists t. split; [exact Ht |].
  apply in_map_iff. now exists c.
Qed.

Lemma concat_rows (tables : list table) :
  List.Forall (fun c => length (snd c) = fold_right Nat.max 0%nat (map nrows tables))
              (concat tables).
Proof.
  apply List.Forall_forall. intros c Hc. unfold concat in Hc.
  apply in_flat_map in Hc as [t [Ht Hc]].
  apply in_map_iff in Hc as [c0 [<- Hc0]]. simpl. rewrite pad_length.
  pose proof (nrows_ge t c0 Hc0).
  pose proof (max_list_ge (map nrows tables) (nrows t)) as Hmax.
  assert (In (nrows t) (map nrows tables)) by (apply in_map_iff; now exists t).
  specialize (Hmax H0). lia.
Qed.

Section ExtractionProperties.

Variables row_mean row_std row_min row_max : list float -> float.

Local Abbreviation features_of := (sensor_features row_mean row_std row_min row_max).
Local Abbreviation app_df := (app_features_df row_mean row_std row_min row_max).
Local Abbreviation train_df := (train_features_df row_mean row_std row_min row_max).

Lemma nrows_sensor_features (sensor : string) (d : list (list float)) :
  nrows (features_of sensor d) = length d.
Proof. unfold nrows. simpl. rewrite !length_map. lia. Qed.

Lemma train_all_features_ok (files : sensor_files)
    (data : string -> list (list float)) (sensors : list string) :
  (forall s, In s sensors -> files s = Some (Ok (data s))) ->
  train_all_features row_mean row_std row_min row_max files sensors
  = Ok (map (fun s => features_of s (data s)) sensors).
Proof.
  induction sensors as [|s sensors IH]; intros H; simpl; [reflexivity |].
  rewrite (H s) by now left. simpl. rewrite IH; [reflexivity |].
  intros s' Hs'. apply H. now right.
Qed.

(** C6, as the code has it. When every sensor file is read, the feature
    table is built whatever the cycle counts are: it has as many rows as
    the longest sensor table, and every statistic column is the sensor's
    own column, in full, followed by NaN cells up to that length. *)
Theorem features_df_pads_shorter_tables
    (files : sensor_files) (data : string -> list (list float)) :
  (forall s, In s sensors_to_process -> files s = Some (Ok (data s))) ->
  let n := fold_right Nat.max 0%nat
             (map (fun s => length (data s)) sensors_to_process) in
  exists features_df,
    app_df files = Ok features_df /\
    train_df files = Ok (Some features_df) /\
    List.Forall (fun c => length (snd c) = n) features_df /\
    forall s, In s sensors_to_process ->
      let padding := repeat NaN (n - length (data s)) in
      In (s +:+ "_mean", map row_mean (data s) ++ padding) features_df /\
      In (s +:+ "_std", map row_std (data s) ++ padding) features_df /\
      In (s +:+ "_min", map row_min (data s) ++ padding) features_df /\
      In (s +:+ "_max", map row_max (data s) ++ padding) features_df.
Proof.
  intros Hfiles n.
  set (tables := map (fun s => features_of s (data s)) sensors_to_process).
  assert (Hn : fold_right Nat.max 0%nat (map nrows tables) = n).
  { unfold tables, n. rewrite map_map. f_equal. apply map_ext.
    intros s. apply nrows_sensor_features. }
  exists (concat tables). split; [| split; [| split]].
  - unfold app_features_df.
    rewrite (rmapM_ok _ (fun s => features_of s (data s))); [reflexivity |].
    intros s Hs. now rewrite (Hfiles s Hs).
  - unfold train_features_df.
    rewrite (train_all_features_ok files data) by exact Hfiles. reflexivity.
  - rewrite <- Hn. apply concat_rows.
  - intros s Hs padding.
    assert (Ht : In (features_of s (data s)) tables).
    { unfold tables. apply in_map_iff. now exists s. }
    assert (Hpad : forall (g : list float -> float) name,
              In (name, map g (data s)) (features_of s (data s)) ->
              In (name, map g (data s) ++ padding) (concat tables)).
    { intros g name Hc. pose proof (concat_In tables _ _ Ht Hc) as H.
      rewrite Hn in H. cbn [fst snd] in H. unfold pad in H.
      rewrite length_map in H. exact H. }
    repeat split; apply Hpad; simpl; auto.
Qed.

End ExtractionProperties.

Lemma features_df_pads_shorter_tables_witness :
  exists features_df,
    app_features_df Sample.const_one Sample.const_one Sample.const_one
      Sample.const_one Sample.uneven_files = Ok features_df /\
    In ("PS2_mean", [Fin 1; NaN]) features_df.
Proof.
  destruct (features_df_pads_shorter_tables Sample.const_one Sample.const_one
              Sample.const_one Sample.const_one Sample.uneven_files
              (fun s => if String.eqb s "PS1"
                        then [[Sample.fz 1; Sample.fz 2]; [Sample.fz 3; Sample.fz 4]]
                        else [[Sample.fz 5; Sample.fz 6]]))
    as [df [Happ [_ [_ Hcols]]]].
  - intros s _. unfold Sample.uneven_files. now destruct (String.eqb s "PS1").
  - exists df. split; [exact Happ |].
    apply (Hcols "PS2"). simpl. auto.
Defined.

(** C6, as stated, fails: with two cycles recorded for PS1 and one for
    every other sensor, neither script reports anything; both build the
    table and fill the second row of the shorter sensors with NaN. *)
Lemma features_df_accepts_uneven_tables :
  Sample.uneven_files "PS1" = Some (Ok [[Sample.fz 1; Sample.fz 2]; [Sample.fz 3; Sample.fz 4]]) /\
  Sample.uneven_files "PS2" = Some (Ok [[Sample.fz 5; Sample.fz 6]]) /\
  exists features_df,
    app_features_df Sample.const_one Sample.const_one Sample.const_one
      Sample.const_one Sample.uneven_files = Ok features_df /\
    train_features_df Sample.const_one Sample.const_one Sample.const_one
      Sample.const_one Sample.uneven_files = Ok (Some features_df) /\
    dict_get "PS1_mean" features_df = Some [Fin 1; Fin 1] /\
    dict_get "PS2_mean" features_df = Some [Fin 1; NaN].
Proof.
  split; [reflexivity |]. split; [reflexivity |].
  eexists. split; [vm_compute; reflexivity |]. repeat split.
Qed.

(** ** Prediction Service: the handler *)

(** Case analysis on what the body of a request is, down to the tests of
    line 86. *)
Ltac case_request req data :=
  let x := fresh "x" in
  let s := fresh "s" in
  let items := fresh "items" in
  destruct req as [? | | [|] | ? x | s | items | data];
  [ | | | | destruct (is_zero x) | destruct (Str.containsb "features" s)
  | destruct (existsb _ items) | ].

Section ServiceProperties.

Variable argsort : list Q -> list nat.

Lemma predict_unloaded (st : state) (req : request) :
  model st = None \/ explainer st = None ->
  predict argsort st req = (not_loaded, st).
Proof.
  unfold predict. intros [H | H]; rewrite H; [reflexivity |].
  now destruct (model st).
Qed.

Lemma predict_diagnosed (st : state) (m : Classifier) (ex : Explainer)
    (data : gmap string (gmap string float)) (features : gmap string float) :
  model st = Some m -> explainer st = Some ex ->
  data !! "features" = Some features ->
  predict argsort st (JsonObject data) =
    match diagnose argsort st m ex features with
    | Ok (predicted_class, confidence, explanations) =>
        assemble st predicted_class confidence explanations
    | Err e => ({| body := error_body (exn_str e); status := 500 |}, st)
    end.
Proof. intros Hm Hex Hf. unfold predict. now rewrite Hm, Hex, Hf. Qed.

Lemma assemble_status (st : state) code conf expl :
  status (fst (assemble st code conf expl)) = 200%nat.
Proof. unfold assemble. now destruct (PREDICTION_MAP st !! code). Qed.

Lemma assemble_known (st : state) code conf expl l d :
  PREDICTION_MAP st !! code = Some l -> heap st !! l = Some d ->
  body (fst (assemble st code conf expl)) = update code conf expl d /\
  heap (snd (assemble st code conf expl))
  = <[l := update code conf expl d]> (heap st).
Proof.
  intros Hl Hd. unfold assemble. rewrite Hl. simpl.
  rewrite lookup_alter_eq, Hd. split; [reflexivity |].
  apply map_eq. intros j. destruct (decide (l = j)) as [<- | Hne].
  - now rewrite lookup_alter_eq, lookup_insert_eq, Hd.
  - now rewrite lookup_alter_ne, lookup_insert_ne.
Qed.

Lemma assemble_unknown (st : state) code conf expl :
  PREDICTION_MAP st !! code = None ->
  body (fst (assemble st code conf expl)) = update code conf expl ∅.
Proof.
  intros Hl. unfold assemble. rewrite Hl. simpl.
  now rewrite lookup_alter_eq, lookup_insert_eq.
Qed.

Lemma assemble_frame (st : state) code conf expl :
  let st' := snd (assemble st code conf expl) in
  model st' = model st /\ explainer st' = explainer st /\
  normal_ranges st' = normal_ranges st /\
  EXPECTED_FEATURES st' = EXPECTED_FEATURES st /\
  PREDICTION_MAP st' = PREDICTION_MAP st.
Proof. unfold assemble. now destruct (PREDICTION_MAP st !! code). Qed.

(** What a request leaves alone: the model, the attributor, the range
    table, the feature list, and which dict each code refers to. *)
Lemma predict_frame (st : state) (req : request) :
  let st' := snd (predict argsort st req) in
  model st' = model st /\ explainer st' = explainer st /\
  normal_ranges st' = normal_ranges st /\
  EXPECTED_FEATURES st' = EXPECTED_FEATURES st /\
  PREDICTION_MAP st' = PREDICTION_MAP st.
Proof.
  unfold predict, bad_request, server_error.
  destruct (model st) as [m|] eqn:Hm, (explainer st) as [ex|] eqn:Hex;
    try (simpl; tauto).
  case_request req data; try (simpl; tauto).
  destruct (data !! "features") as [features|]; try (simpl; tauto).
  destruct (diagnose argsort st m ex features) as [[[code conf] expl] | e];
    try (simpl; tauto).
  rewrite <- Hm, <- Hex. apply assemble_frame.
Qed.

Lemma heap_closed_assemble (st : state) code conf expl :
  heap_closed st -> heap_closed (snd (assemble st code conf expl)).
Proof.
  unfold heap_closed, assemble. intros Hc.
  destruct (PREDICTION_MAP st !! code) as [l|]; simpl;
    intros c l' Hl'; specialize (Hc c l' Hl'); simpl in Hc;
    rewrite lookup_alter_is_Some; [exact Hc |].
  rewrite lookup_insert_is_Some'. now right.
Qed.

Lemma heap_closed_predict (st : state) (req : request) :
  heap_closed st -> heap_closed (snd (predict argsort st req)).
Proof.
  intros Hc. unfold predict, bad_request, server_error.
  destruct (model st) as [m|], (explainer st) as [ex|]; try exact Hc.
  case_request req data; try exact Hc.
  destruct (data !! "features") as [features|]; try exact Hc.
  destruct (diagnose argsort st m ex features) as [[[code conf] expl] | e];
    try exact Hc.
  now apply heap_closed_assemble.
Qed.

Lemma diagnose_ok (st : state) (m : Classifier) (ex : Explainer)
    (features : gmap string float) code proba ci conf shap expl :
  let features_df := DataFrame_row features (EXPECTED_FEATURES st) in
  model_predict m features_df = Ok code ->
  predict_proba m features_df = Ok proba ->
  index_of code (classes_ m) = Some ci ->
  proba !! ci = Some conf ->
  ex features_df ci = Ok shap ->
  explain st features_df (top_indices argsort shap) = Ok expl ->
  diagnose argsort st m ex features = Ok (code, conf, expl).
Proof.
  intros row Hp Hpp Hci Hconf Hshap Hexpl. unfold diagnose. fold row.
  rewrite Hp, Hpp. simpl. unfold where_first. rewrite Hci. simpl.
  unfold item. rewrite Hconf. simpl. rewrite Hshap. simpl.
  now rewrite Hexpl.
Qed.

Lemma index_of_spec (c : Z) (l : list Z) (i : nat) :
  index_of c l = Some i ->
  l !! i = Some c /\ forall j, (j < i)%nat -> l !! j <> Some c.
Proof.
  revert i. induction l as [|x l IH]; intros i; simpl; [discriminate |].
  destruct (Z.eqb_spec x c) as [-> | Hne].
  - intros [= <-]. split; [reflexivity | intros j Hj; lia].
  - destruct (index_of c l) as [k|]; simpl; [| discriminate].
    intros [= <-]. destruct (IH k eq_refl) as [Hk Hmin]. split; [exact Hk |].
    intros [|j] Hj; simpl; [congruence | apply Hmin; lia].
Qed.

End ServiceProperties.

(** C3. When a request is answered, the reported confidence is the
    two-decimal rendering of the probability found at the position of the
    predicted class in [classes_] (its first position), whatever the other
    probabilities are. *)
Theorem confidence_is_predicted_class_probability
    (argsort : list Q -> list nat) (st : state) (m : Classifier) (ex : Explainer)
    (data : gmap string (gmap string float)) (features : gmap string float)
    (code : Z) (proba : list Q) (ci : nat) (p : Q) (shap : list Q)
    (expl : list string) :
  heap_closed st ->
  model st = Some m -> explainer st = Some ex ->
  data !! "features" = Some features ->
  let features_df := DataFrame_row features (EXPECTED_FEATURES st) in
  model_predict m features_df = Ok code ->
  predict_proba m features_df = Ok proba ->
  index_of code (classes_ m) = Some ci ->
  proba !! ci = Some p ->
  ex features_df ci = Ok shap ->
  explain st features_df (top_indices argsort shap) = Ok expl ->
  let r := fst (predict argsort st (JsonObject data)) in
  classes_ m !! ci = Some code /\
  status r = 200%nat /\
  body r !! "confidence" = Some (JStr (fmt2 (Fin p))) /\
  body r !! "prediction_code" = Some (JInt code).
Proof.
  intros Hc Hm Hex Hf row Hp Hpp Hci Hconf Hshap Hexpl r.
  split; [now apply index_of_spec |].
  unfold r. rewrite (predict_diagnosed argsort st m ex data features Hm Hex Hf).
  rewrite (diagnose_ok argsort st m ex features code proba ci p shap expl
             Hp Hpp Hci Hconf Hshap Hexpl).
  split; [apply assemble_status |].
  destruct (PREDICTION_MAP st !! code) as [l|] eqn:Hl.
  - destruct (Hc code l Hl) as [d Hd].
    destruct (assemble_known st code p expl l d Hl Hd) as [-> _].
    unfold update. now simplify_map_eq.
  - rewrite (assemble_unknown st code p expl Hl).
    unfold update. now simplify_map_eq.
Qed.

Lemma initial_heap_closed (m : option Classifier) (ex : option Explainer)
    (ranges : list (string * (float * float))) (names : list string) :
  heap_closed {| model := m; explainer := ex; normal_ranges := ranges;
                 EXPECTED_FEATURES := names;
                 heap := initial_heap; PREDICTION_MAP := initial_PREDICTION_MAP |}.
Proof.
  unfold heap_closed, initial_PREDICTION_MAP. simpl.
  repeat (apply map_Forall_insert_2; [now eexists |]).
  apply map_Forall_empty.
Qed.

(** The predicted class 100 has probability 0.3 while class 90 has 0.4:
    the response carries "0.30". *)
Lemma confidence_is_predicted_class_probability_witness :
  let r := fst (predict stable_argsort (Sample.service (Sample.classifier 100))
                  Sample.full_request) in
  status r = 200%nat /\ body r !! "confidence" = Some (JStr "0.30").
Proof.
  pose proof (confidence_is_predicted_class_probability stable_argsort
    (Sample.service (Sample.classifier 100)) (Sample.classifier 100)
    Sample.attributor {[ "features" := Sample.full_features ]}
    Sample.full_features 100 [1 # 10; 2 # 10; 4 # 10; 3 # 10] 3%nat (3 # 10)
    Sample.shap_values
    [ high_text "Std" "Ps1" (Sample.fz 50) (Sample.fz 10) (Sample.fz 20);
      within_text "Max" "Ps1" (Sample.fz 15);
      within_text "Min" "Ps1" (Sample.fz 12) ]
    (initial_heap_closed _ _ _ _) eq_refl eq_refl (lookup_singleton_eq _ _)
    eq_refl eq_refl eq_refl eq_refl eq_refl eq_refl) as H.
  intros r. destruct H as [_ [Hs [Hconf _]]]. split; [exact Hs | exact Hconf].
Defined.

(** C9. When the classifier predicts a code that [PREDICTION_MAP] does not
    hold, the request is answered with status 200 and a body made of
    exactly [confidence], [prediction_code] and [explanations]: it has no
    [label], no [severity] and no [remedy]. *)
Theorem unknown_code_gives_bare_response
    (argsort : list Q -> list nat) (st : state) (m : Classifier) (ex : Explainer)
    (data : gmap string (gmap string float)) (features : gmap string float)
    (code : Z) (conf : Q) (expl : list string) :
  model st = Some m -> explainer st = Some ex ->
  data !! "features" = Some features ->
  diagnose argsort st m ex features = Ok (code, conf, expl) ->
  PREDICTION_MAP st !! code = None ->
  let r := fst (predict argsort st (JsonObject data)) in
  status r = 200%nat /\
  body r = <["explanations" := JList expl]>
             (<["prediction_code" := JInt code]>
                {[ "confidence" := JStr (fmt2 (Fin conf)) ]}) /\
  body r !! "label" = None /\ body r !! "severity" = None /\
  body r !! "remedy" = None /\ body r !! "error" = None.
Proof.
  intros Hm Hex Hf Hd Hcode r. unfold r.
  rewrite (predict_diagnosed argsort st m ex data features Hm Hex Hf), Hd.
  split; [apply assemble_status |].
  rewrite (assemble_unknown st code conf expl Hcode). unfold update.
  repeat split; now simplify_map_eq.
Qed.

Lemma unknown_code_gives_bare_response_witness :
  let r := fst (predict stable_argsort (Sample.service (Sample.classifier 73))
                  Sample.full_request) in
  let r' := fst (predict stable_argsort (Sample.service Sample.unlisted)
                   Sample.full_request) in
  body r !! "label" = Some (JStr "Close to Total Failure") /\
  status r' = 200%nat /\ body r' !! "label" = None /\
  body r' !! "prediction_code" = Some (JInt 55) /\
  body r' !! "confidence" = Some (JStr "1.00").
Proof.
  intros r r'. split; [vm_compute; reflexivity |].
  destruct (unknown_code_gives_bare_response stable_argsort
    (Sample.service Sample.unlisted) Sample.unlisted
    Sample.attributor {[ "features" := Sample.full_features ]}
    Sample.full_features 55 1%Q
    [ high_text "Std" "Ps1" (Sample.fz 50) (Sample.fz 10) (Sample.fz 20);
      within_text "Max" "Ps1" (Sample.fz 15);
      within_text "Min" "Ps1" (Sample.fz 12) ]
    eq_refl eq_refl (lookup_singleton_eq _ _) eq_refl eq_refl)
    as [Hs [Hb [Hl _]]].
  fold r' in Hs, Hb, Hl. repeat split; try assumption; rewrite Hb; reflexivity.
Defined.

(** C7, as the code has it. A request that carries a [features] mapping is
    never answered with status 400, whatever names the mapping omits: an
    omitted name becomes a NaN cell of the row handed to the classifier,
    and the answer is a success when the collaborators and the explanation
    loop succeed, and a status 500 error carrying the exception text
    otherwise. *)
Theorem omitted_features_are_not_rejected
    (argsort : list Q -> list nat) (st : state)
    (data : gmap string (gmap string float)) (features : gmap string float) :
  data !! "features" = Some features ->
  let r := fst (predict argsort st (JsonObject data)) in
  status r <> 400%nat /\
  (forall i name,
     EXPECTED_FEATURES st !! i = Some name -> features !! name = None ->
     DataFrame_row features (EXPECTED_FEATURES st) !! i = Some NaN) /\
  (forall m ex, model st = Some m -> explainer st = Some ex ->
     match diagnose argsort st m ex features with
     | Ok _ => status r = 200%nat
     | Err e => r = {| body := error_body (exn_str e); status := 500 |}
     end).
Proof.
  intros Hf r. split; [| split].
  - unfold r, predict. rewrite Hf.
    destruct (model st) as [m|], (explainer st) as [ex|]; try discriminate.
    destruct (diagnose argsort st m ex features) as [[[code conf] expl] | e];
      [| discriminate].
    rewrite assemble_status. discriminate.
  - intros i name Hi Hname. unfold DataFrame_row.
    rewrite list_lookup_fmap, Hi. simpl. now rewrite Hname.
  - intros m ex Hm Hex. unfold r.
    rewrite (predict_diagnosed argsort st m ex data features Hm Hex Hf).
    destruct (diagnose argsort st m ex features) as [[[code conf] expl] | e];
      [apply assemble_status | reflexivity].
Qed.

Lemma omitted_features_are_not_rejected_witness :
  status (fst (predict stable_argsort (Sample.service (Sample.classifier 100))
                 Sample.partial_request)) <> 400%nat.
Proof.
  exact (proj1 (omitted_features_are_not_rejected stable_argsort
                  (Sample.service (Sample.classifier 100))
                  {[ "features" := Sample.partial_features ]}
                  Sample.partial_features (lookup_singleton_eq _ _))).
Defined.

(** C7, as stated, fails: the request leaves out PS1_min and PS2_mean, two
    names of the feature list. With a classifier that tolerates missing
    cells it is answered with status 200 and a prediction; with one that
    refuses them it is answered with status 500, the classifier's own
    message in the body. In neither case is the status 400. *)
Lemma request_with_omitted_features_is_answered :
  let st := Sample.service (Sample.classifier 100) in
  let r := fst (predict stable_argsort st Sample.partial_request) in
  let r' := fst (predict stable_argsort (Sample.service (Sample.strict 100))
                   Sample.partial_request) in
  In "PS1_min" (EXPECTED_FEATURES st) /\
  Sample.partial_features !! "PS1_min" = None /\
  status r = 200%nat /\
  body r !! "prediction_code" = Some (JInt 100) /\
  body r !! "error" = None /\
  status r' = 500%nat /\
  body r' !! "error" = Some (JStr "Input X contains NaN.").
Proof. vm_compute. repeat split; auto. Qed.

Lemma serve_unloaded (argsort : list Q -> list nat) (st : state)
    (reqs : list request) :
  model st = None \/ explainer st = None ->
  serve argsort st reqs = (map (fun _ => not_loaded) reqs, st).
Proof.
  intros H. induction reqs as [|req reqs IH]; simpl; [reflexivity |].
  now rewrite (predict_unloaded argsort st req H), IH.
Qed.

(** C8, as the code has it. When loading the model stops on a missing file,
    the module still comes up, with neither model nor explainer, and every
    request of any sequence is answered with the error "Model or Explainer
    not loaded" and status 500, which no success carries; the state is left
    as it was. *)
Theorem missing_model_file_rejects_every_request
    (row_mean row_std row_min row_max : list float -> float)
    (percentile : list float -> Q -> float)
    (argsort : list Q -> list nat) (msg : string)
    (TreeExplainer : Classifier -> result Explainer)
    (profile : result (list Z)) (files : sensor_files) (reqs : list request) :
  exists st,
    startup row_mean row_std row_min row_max percentile
      (Err (FileNotFoundError msg)) TreeExplainer profile files = Ok st /\
    model st = None /\ explainer st = None /\
    serve argsort st reqs = (map (fun _ => not_loaded) reqs, st) /\
    body not_loaded = {[ "error" := JStr "Model or Explainer not loaded" ]} /\
    status not_loaded = 500%nat.
Proof.
  eexists. split; [reflexivity |]. simpl. repeat split.
  apply serve_unloaded. now left.
Qed.

(** C8, as stated, fails: when the model file is there but cannot be
    unpickled, or when the explainer cannot be built for the model, the
    exception is not caught and the module does not come up at all. *)
Lemma other_load_failures_stop_the_service :
  startup Sample.const_one Sample.const_one Sample.const_one Sample.const_one Sample.percentile
    (Err (OtherError "invalid load key")) (fun _ => Ok Sample.attributor)
    (Ok [100]) Sample.even_files
  = Err (OtherError "invalid load key") /\
  startup Sample.const_one Sample.const_one Sample.const_one Sample.const_one Sample.percentile
    (Ok (Sample.classifier 100))
    (fun _ => Err (OtherError "Model type not yet supported by TreeExplainer"))
    (Ok [100]) Sample.even_files
  = Err (OtherError "Model type not yet supported by TreeExplainer").
Proof. split; reflexivity. Qed.

(** C5, on the code. A request leaves the model, the attributor, the range
    table and the feature list as they were, but not the descriptor map:
    for a predicted code that has a descriptor, [update] writes the three
    result keys into the very dict that [PREDICTION_MAP] holds. After one
    request that predicts 100, the descriptor of 100 has a [confidence]
    entry that it did not have before. *)
Theorem predict_writes_into_descriptor_map :
  (forall argsort st req,
     let st' := snd (predict argsort st req) in
     model st' = model st /\ explainer st' = explainer st /\
     normal_ranges st' = normal_ranges st /\
     EXPECTED_FEATURES st' = EXPECTED_FEATURES st) /\
  let st := Sample.service (Sample.classifier 100) in
  let st' := snd (predict stable_argsort st Sample.full_request) in
  (descriptor st 100 ≫= (.!! "confidence")) = None /\
  (descriptor st' 100 ≫= (.!! "confidence")) = Some (JStr "0.30") /\
  descriptor st' 100 <> descriptor st 100.
Proof.
  split.
  - intros argsort st req st'.
    destruct (predict_frame argsort st req) as (H1 & H2 & H3 & H4 & _). auto.
  - assert (H1 : (descriptor (Sample.service (Sample.classifier 100)) 100
                    ≫= (.!! "confidence")) = None) by (vm_compute; reflexivity).
    assert (H2 : (descriptor
                    (snd (predict stable_argsort
                            (Sample.service (Sample.classifier 100))
                            Sample.full_request)) 100
                    ≫= (.!! "confidence")) = Some (JStr "0.30"))
      by (vm_compute; reflexivity).
    cbv zeta. repeat split; try assumption.
    intros E. rewrite E, H1 in H2. discriminate.
Qed.

(** ** Ranking by attribution magnitude *)

Lemma StronglySorted_app_inv {A} (R : A -> A -> Prop) (l1 l2 : list A) :
  StronglySorted R (l1 ++ l2) ->
  StronglySorted R l1 /\ StronglySorted R l2 /\
  forall x y, In x l1 -> In y l2 -> R x y.
Proof.
  induction l1 as [|a l1 IH]; simpl; intros H.
  - repeat split; [constructor | exact H | intros x y []].
  - inversion H as [|? ? Hs Ha]; subst.
    destruct (IH Hs) as [H1 [H2 H12]].
    rewrite List.Forall_forall in Ha. repeat split.
    + constructor; [exact H1 |]. apply List.Forall_forall.
      intros x Hx. apply Ha, in_or_app. now left.
    + exact H2.
    + intros x y [<- | Hx] Hy; [apply Ha, in_or_app; now right | now apply H12].
Qed.

Lemma StronglySorted_app {A} (R : A -> A -> Prop) (l1 l2 : list A) :
  StronglySorted R l1 -> StronglySorted R l2 ->
  (forall x y, In x l1 -> In y l2 -> R x y) ->
  StronglySorted R (l1 ++ l2).
Proof.
  induction 1 as [|a l1 Hs IH Ha]; simpl; intros H2 H12; [exact H2 |].
  constructor.
  - apply IH; [exact H2 |]. intros x y Hx Hy. apply H12; [now right | exact Hy].
  - apply List.Forall_forall. intros x Hx. apply in_app_or in Hx as [Hx | Hx].
    + rewrite List.Forall_forall in Ha. now apply Ha.
    + apply H12; [now left | exact Hx].
Qed.

Lemma StronglySorted_rev {A} (R : A -> A -> Prop) (l : list A) :
  StronglySorted R l -> StronglySorted (fun x y => R y x) (rev l).
Proof.
  induction 1 as [|a l Hs IH Ha]; simpl; [constructor |].
  apply StronglySorted_app; [exact IH | repeat constructor |].
  intros x y Hx [<- | []]. rewrite List.Forall_forall in Ha.
  apply Ha. now apply in_rev.
Qed.

Lemma StronglySorted_map {A B} (R : A -> A -> Prop) (R' : B -> B -> Prop)
    (f : A -> B) (l : list A) :
  StronglySorted R l ->
  (forall x y, In x l -> In y l -> R x y -> R' (f x) (f y)) ->
  StronglySorted R' (map f l).
Proof.
  induction 1 as [|a l Hs IH Ha]; simpl; intros Hf; [constructor |].
  constructor.
  - apply IH. intros x y Hx Hy. apply Hf; now right.
  - rewrite List.Forall_forall in *. intros y Hy.
    apply in_map_iff in Hy as [x [<- Hx]].
    apply Hf; [now left | now right | now apply Ha].
Qed.

Lemma StronglySorted_weaken {A} (R R' : A -> A -> Prop) (l : list A) :
  StronglySorted R l ->
  (forall x y, In x l -> In y l -> R x y -> R' x y) ->
  StronglySorted R' l.
Proof.
  intros Hs Hw. rewrite <- (map_id l).
  apply (StronglySorted_map R R' (fun x => x)); assumption.
Qed.

(** A list sorted by an order that is antisymmetric on its elements is the
    only sorted arrangement of these elements. *)
Lemma sorted_permutation_unique {A} (R : A -> A -> Prop) (l1 l2 : list A) :
  StronglySorted R l1 -> StronglySorted R l2 -> Permutation l1 l2 ->
  (forall x y, In x l1 -> In y l1 -> R x y -> R y x -> x = y) ->
  l1 = l2.
Proof.
  intros H1. revert l2. induction H1 as [|a l1 Hs IH Ha]; intros l2 H2 Hp Hanti.
  - apply Permutation_nil in Hp. now subst.
  - destruct H2 as [|b l2 Hs2 Hb].
    { apply Permutation_sym, Permutation_nil in Hp. discriminate. }
    rewrite List.Forall_forall in Ha, Hb.
    assert (Hab : a = b).
    { assert (Ha2 : In a (b :: l2)).
      { eapply Permutation_in; [exact Hp | now left]. }
      assert (Hb1 : In b (a :: l1)).
      { eapply Permutation_in; [apply Permutation_sym; exact Hp | now left]. }
      destruct Ha2 as [E | Ha2]; [now symmetry |].
      destruct Hb1 as [E | Hb1]; [exact E |].
      apply Hanti; [now left | now right | now apply Ha | now apply Hb]. }
    subst b. f_equal. apply IH; [exact Hs2 | |].
    + now apply Permutation_cons_inv in Hp.
    + intros x y Hx Hy. apply Hanti; now right.
Qed.

Lemma transpose_involutive (a b i : nat) : transpose a b (transpose a b i) = i.
Proof.
  unfold transpose.
  destruct (Nat.eqb_spec i a) as [-> | Ha].
  - destruct (Nat.eqb_spec b a) as [E | E]; [now subst |]. now rewrite Nat.eqb_refl.
  - destruct (Nat.eqb_spec i b) as [-> | Hb].
    + now rewrite Nat.eqb_refl.
    + destruct (Nat.eqb_spec i a); [lia |]. destruct (Nat.eqb_spec i b); [lia |].
      reflexivity.
Qed.

Lemma transpose_lt (a b i n : nat) :
  (a < n)%nat -> (b < n)%nat -> (i < n)%nat -> (transpose a b i < n)%nat.
Proof.
  unfold transpose. intros.
  destruct (i =? a)%nat; [assumption |]. now destruct (i =? b)%nat.
Qed.

Lemma transpose_seq (a b n : nat) :
  (a < n)%nat -> (b < n)%nat ->
  Permutation (map (transpose a b) (seq 0 n)) (seq 0 n).
Proof.
  intros Ha Hb. apply Stdlib.Sorting.Permutation.NoDup_Permutation.
  - apply Stdlib.Lists.Finite.Injective_map_NoDup; [| apply List.seq_NoDup].
    intros x y E. rewrite <- (transpose_involutive a b x), E.
    apply transpose_involutive.
  - apply List.seq_NoDup.
  - intros x. rewrite in_map_iff. split.
    + intros [y [<- Hy]]. apply in_seq in Hy. apply in_seq.
      pose proof (transpose_lt a b y n Ha Hb). lia.
    + intros Hx. exists (transpose a b x). split; [apply transpose_involutive |].
      apply in_seq in Hx. apply in_seq.
      pose proof (transpose_lt a b x n Ha Hb). lia.
Qed.

Lemma swap_scores_length (a b : nat) (shap : list Q) :
  length (swap_scores a b shap) = length shap.
Proof. unfold swap_scores. now rewrite length_map, length_seq. Qed.

Lemma swap_scores_nth (a b i : nat) (shap : list Q) :
  (i < length shap)%nat ->
  nth i (swap_scores a b shap) 0%Q = nth (transpose a b i) shap 0%Q.
Proof.
  intros Hi. unfold swap_scores.
  rewrite (nth_indep _ 0%Q (nth (transpose a b 0%nat) shap 0%Q))
    by now rewrite length_map, length_seq.
  rewrite (map_nth (fun i => nth (transpose a b i) shap 0%Q)).
  now rewrite seq_nth.
Qed.

Lemma magnitude_nth (shap : list Q) (i : nat) :
  nth i (map Qabs shap) 0%Q = magnitude shap i.
Proof. unfold magnitude. apply (map_nth Qabs shap 0%Q). Qed.

Lemma insert_index_perm (v : list Q) (i : nat) (l : list nat) :
  Permutation (insert_index v i l) (i :: l).
Proof.
  induction l as [|j l IH]; simpl; [reflexivity |].
  destruct (Qle_bool (nth i v 0%Q) (nth j v 0%Q)
            && negb (Qeq_bool (nth i v 0%Q) (nth j v 0%Q))); [reflexivity |].
  rewrite IH. apply perm_swap.
Qed.

Lemma insert_index_sorted (v : list Q) (i : nat) (l : list nat) :
  StronglySorted (fun i j => (nth i v 0 <= nth j v 0)%Q) l ->
  StronglySorted (fun i j => (nth i v 0 <= nth j v 0)%Q) (insert_index v i l).
Proof.
  induction 1 as [|j l Hs IH Hj]; simpl; [repeat constructor |].
  rewrite List.Forall_forall in Hj.
  destruct (Qle_bool (nth i v 0%Q) (nth j v 0%Q)) eqn:Hle; simpl.
  - destruct (Qeq_bool (nth i v 0%Q) (nth j v 0%Q)) eqn:Heq; simpl.
    + apply Qeq_bool_iff in Heq. constructor; [exact IH |].
      apply List.Forall_forall. intros x Hx.
      eapply Permutation_in in Hx; [| apply insert_index_perm].
      destruct Hx as [<- | Hx]; [rewrite Heq; apply Qle_refl | now apply Hj].
    + apply Qle_bool_iff in Hle. constructor; [now constructor; [| apply List.Forall_forall] |].
      apply List.Forall_forall. intros x [<- | Hx]; [exact Hle |].
      eapply Qle_trans; [exact Hle | now apply Hj].
  - assert (Hji : (nth j v 0 <= nth i v 0)%Q).
    { destruct (Qlt_le_dec (nth j v 0%Q) (nth i v 0%Q)) as [H | H];
        [now apply Qlt_le_weak |].
      apply Qle_bool_iff in H. congruence. }
    constructor; [exact IH |].
    apply List.Forall_forall. intros x Hx.
    eapply Permutation_in in Hx; [| apply insert_index_perm].
    destruct Hx as [<- | Hx]; [exact Hji | now apply Hj].
Qed.

Lemma stable_argsort_contract : argsort_contract stable_argsort.
Proof.
  intros v. unfold stable_argsort.
  assert (G : forall xs acc,
    Permutation (fold_left (fun l i => insert_index v i l) xs acc) (xs ++ acc) /\
    (StronglySorted (fun i j => (nth i v 0 <= nth j v 0)%Q) acc ->
     StronglySorted (fun i j => (nth i v 0 <= nth j v 0)%Q)
       (fold_left (fun l i => insert_index v i l) xs acc))).
  { induction xs as [|x xs IH]; intros acc; simpl; [now split |].
    destruct (IH (insert_index v x acc)) as [Hp Hs]. split.
    - rewrite Hp, insert_index_perm. symmetry. apply Permutation_middle.
    - intros H. now apply Hs, insert_index_sorted. }
  destruct (G (seq 0 (length v)) []) as [Hp Hs]. split.
  - now rewrite app_nil_r in Hp.
  - apply Hs. constructor.
Qed.

Section Ranking.

Variable argsort : list Q -> list nat.
Hypothesis argsort_ok : argsort_contract argsort.

Lemma argsort_length (v : list Q) : length (argsort v) = length v.
Proof.
  destruct (argsort_ok v) as [Hp _].
  apply Permutation_length in Hp. now rewrite length_seq in Hp.
Qed.

Lemma argsort_In (v : list Q) (i : nat) :
  In i (argsort v) <-> (i < length v)%nat.
Proof.
  destruct (argsort_ok v) as [Hp _]. split; intros H.
  - eapply Permutation_in in H; [| exact Hp]. apply in_seq in H. lia.
  - eapply Permutation_in; [apply Permutation_sym; exact Hp |].
    apply in_seq. lia.
Qed.

Lemma argsort_NoDup (v : list Q) : List.NoDup (argsort v).
Proof.
  destruct (argsort_ok v) as [Hp _].
  eapply Permutation_NoDup; [apply Permutation_sym; exact Hp |].
  apply List.seq_NoDup.
Qed.

Lemma top_indices_length (shap : list Q) :
  length (top_indices argsort shap) = Nat.min 3 (length shap).
Proof.
  unfold top_indices, last_n.
  rewrite length_rev, length_skipn, argsort_length, length_map. lia.
Qed.

Lemma top_indices_In (shap : list Q) (i : nat) :
  In i (top_indices argsort shap) -> (i < length shap)%nat.
Proof.
  unfold top_indices, last_n. intros H. apply in_rev in H.
  assert (Hi : In i (argsort (map Qabs shap))).
  { rewrite <- (firstn_skipn (length (argsort (map Qabs shap)) - 3)).
    apply in_or_app. now right. }
  apply argsort_In in Hi. now rewrite length_map in Hi.
Qed.

Lemma top_indices_NoDup (shap : list Q) : List.NoDup (top_indices argsort shap).
Proof.
  unfold top_indices, last_n. apply List.NoDup_rev.
  pose proof (argsort_NoDup (map Qabs shap)) as H.
  rewrite <- (firstn_skipn (length (argsort (map Qabs shap)) - 3)) in H.
  now apply List.NoDup_app_remove_l in H.
Qed.

(** The selected features come in descending order of magnitude. *)
Lemma top_indices_descending (shap : list Q) :
  StronglySorted (fun i j => (magnitude shap j <= magnitude shap i)%Q)
                 (top_indices argsort shap).
Proof.
  unfold top_indices, last_n.
  destruct (argsort_ok (map Qabs shap)) as [_ Hs].
  rewrite <- (firstn_skipn (length (argsort (map Qabs shap)) - 3)) in Hs.
  apply StronglySorted_app_inv in Hs as [_ [Hs _]].
  apply StronglySorted_rev in Hs.
  eapply StronglySorted_weaken; [exact Hs |].
  intros x y _ _ H. simpl in H. now rewrite !magnitude_nth in H.
Qed.

(** No feature that was left out outweighs a selected one. *)
Lemma top_indices_dominate (shap : list Q) (i j : nat) :
  (i < length shap)%nat ->
  ~ In i (top_indices argsort shap) -> In j (top_indices argsort shap) ->
  (magnitude shap i <= magnitude shap j)%Q.
Proof.
  unfold top_indices, last_n. intros Hi Hni Hj.
  rewrite <- in_rev in Hni, Hj.
  destruct (argsort_ok (map Qabs shap)) as [_ Hs].
  assert (Hin : In i (argsort (map Qabs shap))).
  { apply argsort_In. now rewrite length_map. }
  rewrite <- (firstn_skipn (length (argsort (map Qabs shap)) - 3)) in Hs, Hin.
  apply StronglySorted_app_inv in Hs as [_ [_ H12]].
  apply in_app_or in Hin as [Hin | Hin]; [| contradiction].
  specialize (H12 i j Hin Hj). simpl in H12.
  now rewrite !magnitude_nth in H12.
Qed.

End Ranking.

Section RankingUnderSwap.

Variable argsort : list Q -> list nat.
Hypothesis argsort_ok : argsort_contract argsort.

Variables (a b : nat) (shap : list Q).
Hypothesis a_lt : (a < length shap)%nat.
Hypothesis b_lt : (b < length shap)%nat.
Hypothesis distinct :
  forall i j, (i < length shap)%nat -> (j < length shap)%nat ->
              (magnitude shap i == magnitude shap j)%Q -> i = j.

Lemma magnitude_swap (i : nat) :
  (i < length shap)%nat ->
  magnitude (swap_scores a b shap) i = magnitude shap (transpose a b i).
Proof. intros Hi. unfold magnitude. now rewrite swap_scores_nth. Qed.

Lemma argsort_swap :
  argsort (map Qabs (swap_scores a b shap))
  = map (transpose a b) (argsort (map Qabs shap)).
Proof.
  destruct (argsort_ok (map Qabs (swap_scores a b shap))) as [Hp' Hs'].
  destruct (argsort_ok (map Qabs shap)) as [Hp Hs].
  rewrite length_map in Hp, Hp'. rewrite swap_scores_length in Hp'.
  assert (Hlt : forall x, In x (argsort (map Qabs shap)) -> (x < length shap)%nat).
  { intros x Hx. eapply Permutation_in in Hx; [| exact Hp].
    apply in_seq in Hx. lia. }
  assert (Hlt' : forall x, In x (argsort (map Qabs (swap_scores a b shap))) ->
                           (x < length shap)%nat).
  { intros x Hx. eapply Permutation_in in Hx; [| exact Hp'].
    apply in_seq in Hx. lia. }
  eapply sorted_permutation_unique; [exact Hs' | | |].
  - eapply StronglySorted_map; [exact Hs |].
    intros x y Hx Hy H. simpl in *.
    rewrite !magnitude_nth in *.
    rewrite !magnitude_swap by (apply transpose_lt; auto).
    now rewrite !transpose_involutive.
  - rewrite Hp'. symmetry. rewrite Hp. now apply transpose_seq.
  - intros x y Hx Hy H1 H2. simpl in *. rewrite !magnitude_nth in *.
    rewrite !magnitude_swap in * by auto.
    assert (E : transpose a b x = transpose a b y).
    { apply distinct; try (apply transpose_lt; auto).
      now apply Qle_antisym. }
    rewrite <- (transpose_involutive a b x), E. apply transpose_involutive.
Qed.

(** With pairwise distinct magnitudes, exchanging the scores of two
    features exchanges these features in the ranking. *)
Lemma top_indices_swap :
  top_indices argsort (swap_scores a b shap)
  = map (transpose a b) (top_indices argsort shap).
Proof.
  unfold top_indices, last_n.
  rewrite argsort_swap, length_map, skipn_map. symmetry. apply map_rev.
Qed.

End RankingUnderSwap.

Lemma explain_total (st : state) (features : gmap string float) (top : list nat) :
  List.Forall (fun name => feature_parts name <> []) (EXPECTED_FEATURES st) ->
  (forall i, In i top -> (i < length (EXPECTED_FEATURES st))%nat) ->
  let features_df := DataFrame_row features (EXPECTED_FEATURES st) in
  exists expl,
    explain st features_df top = Ok expl /\
    Forall2 (fun i text => explain_one st features_df i = Ok text) top expl.
Proof.
  intros Hnames Htop row. unfold explain.
  induction top as [|i top IH]; simpl.
  - exists []. split; [reflexivity | constructor].
  - destruct IH as [expl [Hexpl Hall]]; [intros j Hj; apply Htop; now right |].
    assert (Hi : (i < length (EXPECTED_FEATURES st))%nat) by (apply Htop; now left).
    destruct (lookup_lt_is_Some_2 (EXPECTED_FEATURES st) i Hi) as [name Hname].
    assert (Hrow : row !! i = Some (default NaN (features !! name))).
    { unfold row, DataFrame_row. now rewrite list_lookup_fmap, Hname. }
    assert (Hparts : feature_parts name <> []).
    { rewrite List.Forall_forall in Hnames. apply Hnames.
      apply list_elem_of_In. eapply list_elem_of_lookup_2. exact Hname. }
    destruct (generate_text_explanation_returns name
                (default NaN (features !! name))
                (dict_get name (normal_ranges st)) Hparts) as [text Htext].
    assert (Hone : explain_one st row i = Ok text).
    { unfold explain_one, item. rewrite Hname, Hrow. simpl. exact Htext. }
    exists (text :: expl). split.
    + rewrite Hone. simpl. now rewrite Hexpl.
    + now constructor.
Qed.

(** C1, as the code has it. When a request is answered and the attributor
    gives one score per listed feature, the explanation list has
    min(3, n) entries, n being the length of the service's feature list
    whatever names the request carries; n is the number of entries of the
    request's mapping only when the request names exactly the listed
    features. The k-th entry is the text of the k-th selected feature; the
    selected features come in descending order of attribution magnitude,
    none occurs twice, and no feature left out outweighs a selected one.
    When the magnitudes are pairwise distinct, exchanging the scores of
    two features exchanges the two features in the selection. *)
Theorem explanations_are_top3_by_magnitude
    (argsort : list Q -> list nat) (st : state) (m : Classifier) (ex : Explainer)
    (data : gmap string (gmap string float)) (features : gmap string float)
    (code : Z) (proba : list Q) (ci : nat) (p : Q) (shap : list Q) :
  argsort_contract argsort ->
  heap_closed st ->
  model st = Some m -> explainer st = Some ex ->
  data !! "features" = Some features ->
  let features_df := DataFrame_row features (EXPECTED_FEATURES st) in
  model_predict m features_df = Ok code ->
  predict_proba m features_df = Ok proba ->
  index_of code (classes_ m) = Some ci ->
  proba !! ci = Some p ->
  ex features_df ci = Ok shap ->
  length shap = length (EXPECTED_FEATURES st) ->
  List.Forall (fun name => feature_parts name <> []) (EXPECTED_FEATURES st) ->
  let r := fst (predict argsort st (JsonObject data)) in
  let top := top_indices argsort shap in
  exists explanations,
    status r = 200%nat /\
    body r !! "explanations" = Some (JList explanations) /\
    length explanations = Nat.min 3 (length (EXPECTED_FEATURES st)) /\
    (NoDup (EXPECTED_FEATURES st) ->
     dom features = list_to_set (EXPECTED_FEATURES st) ->
     length explanations = Nat.min 3 (size features)) /\
    Forall2 (fun i text => explain_one st features_df i = Ok text)
            top explanations /\
    StronglySorted (fun i j => (magnitude shap j <= magnitude shap i)%Q) top /\
    List.NoDup top /\
    (forall i j, (i < length shap)%nat -> ~ In i top -> In j top ->
                 (magnitude shap i <= magnitude shap j)%Q) /\
    (forall a b,
       (a < length shap)%nat -> (b < length shap)%nat ->
       (forall i j, (i < length shap)%nat -> (j < length shap)%nat ->
                    (magnitude shap i == magnitude shap j)%Q -> i = j) ->
       top_indices argsort (swap_scores a b shap) = map (transpose a b) top).
Proof.
  intros Hsort Hc Hm Hex Hf row Hp Hpp Hci Hconf Hshap Hlen Hnames r top.
  destruct (explain_total st features top Hnames) as [expl [Hexpl Hall]].
  { intros i Hi. rewrite <- Hlen. now apply (top_indices_In argsort Hsort). }
  exists expl. unfold r.
  rewrite (predict_diagnosed argsort st m ex data features Hm Hex Hf).
  rewrite (diagnose_ok argsort st m ex features code proba ci p shap expl
             Hp Hpp Hci Hconf Hshap Hexpl).
  split; [apply assemble_status |]. split.
  { destruct (PREDICTION_MAP st !! code) as [l|] eqn:Hl.
    - destruct (Hc code l Hl) as [d Hd].
      destruct (assemble_known st code p expl l d Hl Hd) as [-> _].
      unfold update. now simplify_map_eq.
    - rewrite (assemble_unknown st code p expl Hl).
      unfold update. now simplify_map_eq. }
  assert (Hcount : length expl = Nat.min 3 (length (EXPECTED_FEATURES st))).
  { rewrite <- Hlen, <- (top_indices_length argsort Hsort shap).
    symmetry. eapply Forall2_length. exact Hall. }
  split; [exact Hcount |].
  split.
  { intros Hnd Hdom. rewrite Hcount. f_equal.
    rewrite <- (size_dom features), Hdom. symmetry.
    now apply size_list_to_set. }
  split; [exact Hall |].
  split; [now apply top_indices_descending |].
  split; [now apply top_indices_NoDup |].
  split; [intros i j; now apply top_indices_dominate |].
  intros a b Ha Hb Hd. now apply top_indices_swap.
Qed.

(** Scores 0.1, -0.5, 0.3, 0.4, -0.2 select the features 1, 3, 2 in this
    order; after the scores of features 1 and 2 are exchanged the selection
    is 2, 3, 1. *)
Lemma explanations_are_top3_by_magnitude_witness :
  let r := fst (predict stable_argsort (Sample.service (Sample.classifier 100))
                  Sample.full_request) in
  top_indices stable_argsort Sample.shap_values = [1; 3; 2]%nat /\
  top_indices stable_argsort (swap_scores 1 2 Sample.shap_values) = [2; 3; 1]%nat /\
  exists explanations,
    body r !! "explanations" = Some (JList explanations) /\
    length explanations = 3%nat.
Proof.
  intros r.
  destruct (explanations_are_top3_by_magnitude stable_argsort
    (Sample.service (Sample.classifier 100)) (Sample.classifier 100)
    Sample.attributor {[ "features" := Sample.full_features ]}
    Sample.full_features 100 [1 # 10; 2 # 10; 4 # 10; 3 # 10] 3%nat (3 # 10)
    Sample.shap_values stable_argsort_contract
    (initial_heap_closed _ _ _ _) eq_refl eq_refl (lookup_singleton_eq _ _)
    eq_refl eq_refl eq_refl eq_refl eq_refl eq_refl)
    as [expl (_ & Hbody & Hlen & _ & _ & _ & _ & _ & Hswap)].
  - repeat constructor; discriminate.
  - split; [reflexivity |]. split.
    + rewrite (Hswap 1%nat 2%nat); [reflexivity | simpl; lia | simpl; lia |].
      intros i j Hi Hj. simpl in Hi, Hj.
      do 5 (destruct i as [|i]; [do 5 (destruct j as [|j]; [vm_compute; try discriminate; reflexivity || (intros H; exfalso; now apply H) |]); lia |]).
      lia.
    + exists expl. split; [exact Hbody | exact Hlen].
Defined.

(** * Further properties of the code *)

(** ** Splitting a feature name *)

Lemma case_is_not_space (c : ascii) :
  Str.is_space (Str.to_upper c) = Str.is_space c /\
  Str.is_space (Str.to_lower c) = Str.is_space c /\
  Ascii.eqb (Str.to_upper c) "_" = Ascii.eqb c "_" /\
  Ascii.eqb (Str.to_lower c) "_" = Ascii.eqb c "_".
Proof. destruct c as [[] [] [] [] [] [] [] []]; vm_compute; auto. Qed.

Lemma title_go_all_chars (P : ascii -> bool) (b : bool) (s : string) :
  (forall c, P (Str.to_upper c) = P c) -> (forall c, P (Str.to_lower c) = P c) ->
  all_chars P (Str.title_go b s) = all_chars P s.
Proof.
  intros Hu Hl. revert b. induction s as [|c s IH]; intros b; simpl; [reflexivity |].
  rewrite IH. now destruct b; rewrite ?Hu, ?Hl.
Qed.

Lemma replace_underscore_space (s : string) :
  all_chars Str.is_space (Str.replace "_" " " s) = all_chars blank s.
Proof.
  induction s as [|c s IH]; simpl; [reflexivity |]. rewrite IH. f_equal.
  unfold blank. destruct (Ascii.eqb c "_"); reflexivity.
Qed.

Lemma split_go_nil (cur : list ascii) (s : string) :
  Str.split_go cur s = [] <-> cur = [] /\ all_chars Str.is_space s = true.
Proof.
  revert cur. induction s as [|c s IH]; intros cur; simpl.
  - destruct cur; simpl; split; try tauto; try discriminate.
    intros [H _]. discriminate.
  - destruct (Str.is_space c); simpl.
    + split.
      * intros H. apply app_eq_nil in H as [H1 H2]. apply IH in H2 as [_ H2].
        split; [| exact H2]. destruct cur; [reflexivity | discriminate].
      * intros [-> H]. simpl. apply IH. now split.
    + rewrite IH. split; [intros [H _]; discriminate | intros [_ H]; discriminate].
Qed.

Lemma feature_parts_nil (feature_name : string) :
  feature_parts feature_name = [] <-> all_chars blank feature_name = true.
Proof.
  unfold feature_parts, Str.split, Str.title. rewrite split_go_nil.
  rewrite title_go_all_chars, replace_underscore_space
    by (intros c; apply case_is_not_space).
  tauto.
Qed.

(** X1. The generator raises [IndexError] exactly for the feature names
    made of underscores and whitespace only (the empty name among them),
    whatever the value and the range; for every other name it returns a
    text. *)
Theorem generate_text_explanation_raises_iff_blank
    (feature_name : string) (value : float) (range : option (float * float)) :
  (all_chars blank feature_name = true ->
   generate_text_explanation feature_name value range
   = Err (IndexError "list index out of range")) /\
  (all_chars blank feature_name = false ->
   exists text, generate_text_explanation feature_name value range = Ok text).
Proof.
  split; intros H.
  - apply feature_parts_nil in H. unfold generate_text_explanation. now rewrite H.
  - apply generate_text_explanation_returns. intros E.
    apply feature_parts_nil in E. congruence.
Qed.

Lemma generate_text_explanation_raises_iff_blank_witness :
  generate_text_explanation "_ _" NaN None
  = Err (IndexError "list index out of range") /\
  exists text, generate_text_explanation "_x" NaN None = Ok text.
Proof.
  split.
  - exact (proj1 (generate_text_explanation_raises_iff_blank "_ _" NaN None) eq_refl).
  - exact (proj2 (generate_text_explanation_raises_iff_blank "_x" NaN None) eq_refl).
Defined.

Lemma all_chars_of_list (P : ascii -> bool) (l : list ascii) :
  all_chars P (string_of_list_ascii l) = forallb P l.
Proof. induction l as [|c l IH]; simpl; [reflexivity | now rewrite IH]. Qed.

Lemma forallb_rev {A} (P : A -> bool) (l : list A) :
  forallb P (rev l) = forallb P l.
Proof.
  induction l as [|x l IH]; simpl; [reflexivity |].
  rewrite forallb_app, IH. simpl. rewrite andb_true_r. apply andb_comm.
Qed.

Lemma flush_tokens (P : ascii -> bool) (cur : list ascii) :
  forallb P cur = true ->
  List.Forall (fun t => t <> EmptyString /\ all_chars P t = true) (Str.flush cur).
Proof.
  intros H. destruct cur as [|c cur]; simpl; [constructor |].
  constructor; [| constructor]. split.
  - intros E. apply (f_equal list_ascii_of_string) in E.
    rewrite list_ascii_of_string_of_list_ascii in E. simpl in E.
    now apply app_eq_nil in E as [_ E].
  - rewrite all_chars_of_list. change (rev cur ++ [c]) with (rev (c :: cur)).
    now rewrite forallb_rev.
Qed.

Lemma split_go_tokens (Q : ascii -> bool) (cur : list ascii) (s : string) :
  forallb (fun c => Q c && negb (Str.is_space c)) cur = true ->
  all_chars Q s = true ->
  List.Forall (fun t => t <> EmptyString /\
                        all_chars (fun c => Q c && negb (Str.is_space c)) t = true)
              (Str.split_go cur s).
Proof.
  revert cur. induction s as [|c s IH]; intros cur Hcur Hs; simpl.
  - now apply flush_tokens.
  - simpl in Hs. apply andb_true_iff in Hs as [Hc Hs].
    destruct (Str.is_space c) eqn:Hsp.
    + apply List.Forall_app. split; [now apply flush_tokens | now apply IH].
    + apply IH; [| exact Hs]. simpl. now rewrite Hc, Hsp, Hcur.
Qed.

Lemma replace_no_underscore (s : string) :
  all_chars (fun c => negb (Ascii.eqb c "_")) (Str.replace "_" " " s) = true.
Proof.
  induction s as [|c s IH]; simpl; [reflexivity |]. rewrite IH, andb_true_r.
  destruct (Ascii.eqb c "_") eqn:E; [reflexivity | now rewrite E].
Qed.

Lemma all_chars_ext (P Q : ascii -> bool) (s : string) :
  (forall c, P c = Q c) -> all_chars P s = all_chars Q s.
Proof. intros H. induction s as [|c s IH]; simpl; [reflexivity | now rewrite H, IH]. Qed.

(** X2. Every part that the generator splits a feature name into is a
    non-empty word without underscore and without whitespace; so are the
    sensor and the words of the metric that the texts show. *)
Theorem feature_parts_are_words (feature_name : string) :
  List.Forall (fun part => part <> EmptyString /\
                           all_chars (fun c => negb (blank c)) part = true)
              (feature_parts feature_name).
Proof.
  unfold feature_parts, Str.split, Str.title.
  eapply List.Forall_impl;
    [| apply (split_go_tokens (fun c => negb (Ascii.eqb c "_")));
       [reflexivity |]].
  - intros t [Hne Ht]. split; [exact Hne |]. rewrite <- Ht.
    apply all_chars_ext. intros c. unfold blank. now rewrite negb_orb.
  - rewrite title_go_all_chars.
    + apply replace_no_underscore.
    + intros c. f_equal. apply case_is_not_space.
    + intros c. f_equal. apply case_is_not_space.
Qed.

(** X3. A missing value, or a range whose bounds are both NaN, is always
    rendered by the within-range template: every comparison with NaN is
    false. The text of a missing value shows it as "nan". *)
Theorem nan_is_rendered_as_within
    (feature_name : string) (value lo hi : float)
    (sensor : string) (rest : list string) :
  feature_parts feature_name = sensor :: rest ->
  is_nan value = true \/ (is_nan lo = true /\ is_nan hi = true) ->
  generate_text_explanation feature_name value (Some (lo, hi))
  = Ok (within_text (Str.join " " rest) sensor value) /\
  (is_nan value = true ->
   Str.contains "(nan) was within its normal range"
     (within_text (Str.join " " rest) sensor value)).
Proof.
  intros Hparts Hnan. split.
  - unfold generate_text_explanation. rewrite Hparts.
    assert (H : ltb value lo = false /\ gtb value hi = false).
    { unfold gtb. destruct Hnan as [H | [H1 H2]]; split; apply ltb_nan; auto. }
    destruct H as [-> ->]. reflexivity.
  - intros H. destruct value; try discriminate. unfold within_text. simpl fmt2.
    do 4 apply contains_app_r.
    exists "** ", " but still a key factor in the model's decision, possibly due to its interaction with other sensor readings.".
    reflexivity.
Qed.

Lemma nan_is_rendered_as_within_witness :
  generate_text_explanation "PS1_mean" NaN (Some (Sample.fz 10, Sample.fz 20))
  = Ok (within_text "Mean" "Ps1" NaN) /\
  generate_text_explanation "PS1_mean" (Sample.fz 50) (Some (NaN, NaN))
  = Ok (within_text "Mean" "Ps1" (Sample.fz 50)).
Proof.
  split.
  - exact (proj1 (nan_is_rendered_as_within "PS1_mean" NaN (Sample.fz 10)
                    (Sample.fz 20) "Ps1" ["Mean"] eq_refl (or_introl eq_refl))).
  - exact (proj1 (nan_is_rendered_as_within "PS1_mean" (Sample.fz 50) NaN NaN
                    "Ps1" ["Mean"] eq_refl (or_intror (conj eq_refl eq_refl)))).
Defined.

(** ** The handler: outcomes and what it writes *)

Lemma update_lookup_other c q e (d : gmap string jvalue) (k : string) :
  k <> "explanations" -> k <> "prediction_code" -> k <> "confidence" ->
  update c q e d !! k = d !! k.
Proof. intros. unfold update. now rewrite !lookup_insert_ne by congruence. Qed.

Lemma static_part_lookup (d : gmap string jvalue) (k : string) :
  static_part d !! k =
  if decide (k = "explanations" \/ k = "prediction_code" \/ k = "confidence")
  then None else d !! k.
Proof.
  unfold static_part. case_decide as H.
  - destruct H as [-> | [-> | ->]]; now simplify_map_eq.
  - rewrite !lookup_delete_ne by (intros <-; tauto). reflexivity.
Qed.

Lemma static_part_update c q e (d : gmap string jvalue) :
  static_part (update c q e d) = static_part d.
Proof.
  apply map_eq. intros k. rewrite !static_part_lookup. case_decide as H; [reflexivity |].
  apply update_lookup_other; intros ->; tauto.
Qed.

Lemma update_static_part c q e (d d' : gmap string jvalue) :
  static_part d = static_part d' -> update c q e d = update c q e d'.
Proof.
  intros H. apply map_eq. intros k.
  destruct (decide (k = "explanations" \/ k = "prediction_code" \/ k = "confidence"))
    as [Hk | Hk].
  - unfold update. destruct Hk as [-> | [-> | ->]]; now simplify_map_eq.
  - rewrite !update_lookup_other by (intros ->; tauto).
    apply (f_equal (fun m => m !! k)) in H. rewrite !static_part_lookup in H.
    now rewrite !decide_False in H by exact Hk.
Qed.

Lemma diagnose_same_service argsort (st st' : state) m ex features :
  normal_ranges st' = normal_ranges st ->
  EXPECTED_FEATURES st' = EXPECTED_FEATURES st ->
  diagnose argsort st' m ex features = diagnose argsort st m ex features.
Proof.
  intros Hr He. unfold diagnose, explain, explain_one. now rewrite Hr, He.
Qed.

Lemma same_service_refl (st : state) : same_service st st.
Proof. unfold same_service. repeat split. Qed.

Lemma fresh_not_referenced (st : state) (code : Z) (l : nat) :
  heap_closed st -> PREDICTION_MAP st !! code = Some l ->
  l <> fresh (dom (heap st)).
Proof.
  intros Hc Hl E. specialize (Hc code l Hl). simpl in Hc.
  apply elem_of_dom in Hc. rewrite E in Hc. now apply is_fresh in Hc.
Qed.

Lemma assemble_same_service (st st' : state) code conf expl :
  heap_closed st' -> same_service st st' ->
  same_service st (snd (assemble st' code conf expl)).
Proof.
  intros Hc (Hm & Hex & Hr & He & Hp & Hh).
  destruct (assemble_frame st' code conf expl) as (Fm & Fex & Fr & Fe & Fp).
  unfold same_service. rewrite Fm, Fex, Fr, Fe, Fp.
  repeat split; try assumption.
  intros c l Hl. rewrite <- (Hh c l Hl). unfold assemble.
  destruct (PREDICTION_MAP st' !! code) as [l'|] eqn:Hl'; simpl.
  - destruct (decide (l' = l)) as [-> | Hne].
    + rewrite lookup_alter_eq. destruct (heap st' !! l); simpl; [| reflexivity].
      now rewrite static_part_update.
    + now rewrite lookup_alter_ne.
  - assert (Hne : fresh (dom (heap st')) <> l).
    { intros E. rewrite <- Hp in Hl.
      now apply (fresh_not_referenced st' c l Hc Hl). }
    now rewrite lookup_alter_ne, lookup_insert_ne.
Qed.

Lemma assemble_same_response (st st' : state) code conf expl :
  heap_closed st -> heap_closed st' -> same_service st st' ->
  fst (assemble st' code conf expl) = fst (assemble st code conf expl).
Proof.
  intros Hc Hc' (Hm & Hex & Hr & He & Hp & Hh).
  destruct (PREDICTION_MAP st !! code) as [l|] eqn:Hl.
  - assert (Hl' : PREDICTION_MAP st' !! code = Some l) by now rewrite Hp.
    destruct (Hc code l Hl) as [d Hd]. destruct (Hc' code l Hl') as [d' Hd'].
    specialize (Hh code l Hl). simpl in Hd, Hd'. rewrite Hd, Hd' in Hh.
    injection Hh as Hh.
    unfold assemble. rewrite Hl, Hl'. simpl.
    rewrite !lookup_alter_eq, Hd, Hd'. simpl.
    now rewrite (update_static_part code conf expl d' d Hh).
  - assert (Hl' : PREDICTION_MAP st' !! code = None) by now rewrite Hp.
    unfold assemble. rewrite Hl, Hl'. simpl.
    now rewrite !lookup_alter_eq, !lookup_insert_eq.
Qed.

Lemma predict_same_service argsort (st st' : state) (req : request) :
  heap_closed st -> heap_closed st' -> same_service st st' ->
  fst (predict argsort st' req) = fst (predict argsort st req) /\
  same_service st (snd (predict argsort st' req)).
Proof.
  intros Hc Hc' Hs. pose proof Hs as (Hm & Hex & Hr & He & Hp & Hh).
  unfold predict, bad_request, server_error. rewrite Hm, Hex.
  destruct (model st) as [m|], (explainer st) as [ex|]; try (split; [reflexivity | exact Hs]).
  case_request req data; try (split; [reflexivity | exact Hs]).
  destruct (data !! "features") as [features|]; try (split; [reflexivity | exact Hs]).
  rewrite (diagnose_same_service argsort st st' m ex features Hr He).
  destruct (diagnose argsort st m ex features) as [[[code conf] expl] | e];
    try (split; [reflexivity | exact Hs]).
  split; [now apply assemble_same_response | now apply assemble_same_service].
Qed.

(** X4. In a sequence of requests served one after the other, every
    response is the one that the first state would give to that request
    alone: what earlier requests wrote into the descriptor dicts is
    overwritten before it can be seen. *)
Theorem responses_do_not_depend_on_earlier_requests
    (argsort : list Q -> list nat) (st : state) (reqs : list request) :
  heap_closed st ->
  fst (serve argsort st reqs) = map (fun req => fst (predict argsort st req)) reqs.
Proof.
  intros Hc.
  assert (G : forall st', heap_closed st' -> same_service st st' ->
    fst (serve argsort st' reqs)
    = map (fun req => fst (predict argsort st req)) reqs).
  { induction reqs as [|req reqs IH]; intros st' Hc' Hs; simpl; [reflexivity |].
    destruct (predict_same_service argsort st st' req Hc Hc' Hs) as [Hr Hs'].
    pose proof (heap_closed_predict argsort st' req Hc') as Hc''.
    specialize (IH _ Hc'' Hs').
    destruct (predict argsort st' req) as [r st1]. simpl in *.
    destruct (serve argsort st1 reqs) as [rs st2]. simpl in *.
    now rewrite Hr, IH. }
  apply G; [exact Hc | apply same_service_refl].
Qed.

Lemma responses_do_not_depend_on_earlier_requests_witness :
  let st := Sample.service (Sample.classifier 100) in
  fst (serve stable_argsort st [Sample.full_request; Sample.partial_request;
                                Sample.full_request])
  = [ fst (predict stable_argsort st Sample.full_request);
      fst (predict stable_argsort st Sample.partial_request);
      fst (predict stable_argsort st Sample.full_request) ].
Proof.
  exact (responses_do_not_depend_on_earlier_requests stable_argsort
           (Sample.service (Sample.classifier 100))
           [Sample.full_request; Sample.partial_request; Sample.full_request]
           (initial_heap_closed _ _ _ _)).
Defined.

Lemma no_error_key_assemble (st : state) code conf expl :
  no_error_key st -> no_error_key (snd (assemble st code conf expl)).
Proof.
  unfold no_error_key, assemble. intros Hn.
  assert (Hu : forall d : gmap string jvalue,
            d !! "error" = None -> update code conf expl d !! "error" = None).
  { intros d Hd. now rewrite update_lookup_other. }
  destruct (PREDICTION_MAP st !! code) as [l|]; simpl; intros j d Hd;
    apply lookup_alter_Some in Hd as [[<- [d0 [Hd0 ->]]] | [_ Hd]].
  - apply Hu. exact (Hn _ _ Hd0).
  - exact (Hn _ _ Hd).
  - apply Hu. apply lookup_insert_Some in Hd0 as [[_ <-] | [_ Hd0]];
      [reflexivity | exact (Hn _ _ Hd0)].
  - apply lookup_insert_Some in Hd as [[_ <-] | [_ Hd]];
      [reflexivity | exact (Hn _ _ Hd)].
Qed.

Lemma no_error_key_predict argsort (st : state) (req : request) :
  no_error_key st -> no_error_key (snd (predict argsort st req)).
Proof.
  intros Hn. unfold predict, bad_request, server_error.
  destruct (model st) as [m|], (explainer st) as [ex|]; try exact Hn.
  case_request req data; try exact Hn.
  destruct (data !! "features") as [features|]; try exact Hn.
  destruct (diagnose argsort st m ex features) as [[[code conf] expl] | e];
    try exact Hn.
  now apply no_error_key_assemble.
Qed.

(** X5. Serving any sequence of requests keeps the model, the attributor,
    the range table, the feature list and the references of
    [PREDICTION_MAP]; in every descriptor dict all entries other than
    [confidence], [prediction_code] and [explanations] (so the label, the
    severity and the remedies) stay as they were; every reference still
    points to a dict, and no descriptor gains an [error] entry. *)
Theorem serve_keeps_the_static_descriptors
    (argsort : list Q -> list nat) (st : state) (reqs : list request) :
  heap_closed st -> no_error_key st ->
  let st' := snd (serve argsort st reqs) in
  same_service st st' /\ heap_closed st' /\ no_error_key st'.
Proof.
  intros Hc Hn.
  assert (G : forall st', heap_closed st' -> no_error_key st' -> same_service st st' ->
    same_service st (snd (serve argsort st' reqs)) /\
    heap_closed (snd (serve argsort st' reqs)) /\
    no_error_key (snd (serve argsort st' reqs))).
  { induction reqs as [|req reqs IH]; intros st' Hc' Hn' Hs; simpl;
      [split; [exact Hs | split; assumption] |].
    destruct (predict_same_service argsort st st' req Hc Hc' Hs) as [_ Hs'].
    pose proof (heap_closed_predict argsort st' req Hc') as Hc''.
    pose proof (no_error_key_predict argsort st' req Hn') as Hn''.
    specialize (IH _ Hc'' Hn'' Hs').
    destruct (predict argsort st' req) as [r st1]. simpl in *.
    destruct (serve argsort st1 reqs) as [rs st2]. simpl in *. exact IH. }
  apply G; [exact Hc | exact Hn | apply same_service_refl].
Qed.

Lemma initial_no_error_key (m : option Classifier) (ex : option Explainer)
    (ranges : list (string * (float * float))) (names : list string) :
  no_error_key {| model := m; explainer := ex; normal_ranges := ranges;
                  EXPECTED_FEATURES := names;
                  heap := initial_heap; PREDICTION_MAP := initial_PREDICTION_MAP |}.
Proof.
  unfold no_error_key, initial_heap. simpl.
  repeat (apply map_Forall_insert_2; [reflexivity |]).
  apply map_Forall_empty.
Qed.

Lemma serve_keeps_the_static_descriptors_witness :
  let st := Sample.service (Sample.classifier 100) in
  let st' := snd (serve stable_argsort st [Sample.full_request; Sample.partial_request]) in
  static_part <$> descriptor st' 100 = static_part <$> descriptor st 100.
Proof.
  intros st st'.
  destruct (serve_keeps_the_static_descriptors stable_argsort st
              [Sample.full_request; Sample.partial_request]
              (initial_heap_closed _ _ _ _) (initial_no_error_key _ _ _ _))
    as [(_ & _ & _ & _ & Hp & Hh) _].
  fold st' in Hp, Hh. unfold descriptor. rewrite Hp.
  change (PREDICTION_MAP st !! 100) with (Some 0%nat). simpl.
  exact (Hh 100 0%nat eq_refl).
Defined.

(** X6. On a state whose descriptors have no [error] entry, a request has
    one of two outcomes. Either it is answered with status 200 and a body
    that has [confidence], [prediction_code] and [explanations] and no
    [error]; or it is answered with status 400 or 500 and a body that is
    exactly one [error] message, and then the state, descriptor dicts
    included, is left as it was. *)
Theorem predict_outcomes
    (argsort : list Q -> list nat) (st : state) (req : request) :
  heap_closed st -> no_error_key st ->
  let r := fst (predict argsort st req) in
  (status r = 200%nat /\ body r !! "error" = None /\
   is_Some (body r !! "confidence") /\ is_Some (body r !! "prediction_code") /\
   is_Some (body r !! "explanations")) \/
  ((status r = 400%nat \/ status r = 500%nat) /\
   (exists msg, body r = {[ "error" := JStr msg ]}) /\
   snd (predict argsort st req) = st).
Proof.
  intros Hc Hn r. unfold r, predict, bad_request, server_error.
  destruct (model st) as [m|], (explainer st) as [ex|];
    try solve [right; simpl; repeat split; eauto].
  case_request req data; try solve [right; simpl; repeat split; eauto].
  destruct (data !! "features") as [features|];
    try solve [right; simpl; repeat split; eauto].
  destruct (diagnose argsort st m ex features) as [[[code conf] expl] | e];
    try solve [right; simpl; repeat split; eauto].
  left. split; [apply assemble_status |].
  destruct (PREDICTION_MAP st !! code) as [l|] eqn:Hl.
  - destruct (Hc code l Hl) as [d Hd].
    destruct (assemble_known st code conf expl l d Hl Hd) as [-> _].
    split; [rewrite update_lookup_other by discriminate; exact (Hn _ _ Hd) |].
    unfold update. repeat split; now simplify_map_eq.
  - rewrite (assemble_unknown st code conf expl Hl).
    unfold update. repeat split; now simplify_map_eq.
Qed.

Lemma predict_outcomes_witness :
  let st := Sample.service (Sample.strict 100) in
  status (fst (predict stable_argsort st Sample.partial_request)) = 500%nat /\
  snd (predict stable_argsort st Sample.partial_request) = st.
Proof.
  intros st.
  destruct (predict_outcomes stable_argsort st Sample.partial_request
              (initial_heap_closed _ _ _ _) (initial_no_error_key _ _ _ _))
    as [[H _] | [_ [_ H]]].
  - vm_compute in H. discriminate.
  - split; [vm_compute; reflexivity | exact H].
Defined.



Lemma index_of_None (c : Z) (l : list Z) :
  ~ In c l -> index_of c l = None.
Proof.
  induction l as [|x l IH]; simpl; intros H; [reflexivity |].
  destruct (Z.eqb_spec x c) as [-> | Hne]; [exfalso; apply H; now left |].
  rewrite IH; [reflexivity |]. intros Hin. apply H. now right.
Qed.

(** X8. When the classifier answers a code that is not among its
    [classes_], the request is answered with status 500 and NumPy's
    index message, and nothing is written, whether or not the code has a
    descriptor. *)
Theorem code_outside_classes_is_an_error
    (argsort : list Q -> list nat) (st : state) (m : Classifier) (ex : Explainer)
    (data : gmap string (gmap string float)) (features : gmap string float)
    (code : Z) (proba : list Q) :
  model st = Some m -> explainer st = Some ex ->
  data !! "features" = Some features ->
  let features_df := DataFrame_row features (EXPECTED_FEATURES st) in
  model_predict m features_df = Ok code ->
  predict_proba m features_df = Ok proba ->
  ~ In code (classes_ m) ->
  predict argsort st (JsonObject data)
  = ({| body := {[ "error" :=
                     JStr "index 0 is out of bounds for axis 0 with size 0" ]};
        status := 500 |}, st).
Proof.
  intros Hm Hex Hf row Hp Hpp Hnot.
  rewrite (predict_diagnosed argsort st m ex data features Hm Hex Hf).
  unfold diagnose. fold row. rewrite Hp, Hpp. simpl.
  unfold where_first. now rewrite (index_of_None code (classes_ m) Hnot).
Qed.

Lemma code_outside_classes_is_an_error_witness :
  let m := {| classes_ := [73; 80; 90]; model_predict := fun _ => Ok 100;
              predict_proba := fun _ => Ok [1 # 2; 1 # 4; 1 # 4] |} in
  status (fst (predict stable_argsort (Sample.service m) Sample.full_request))
  = 500%nat.
Proof.
  intros m. unfold Sample.full_request.
  rewrite (code_outside_classes_is_an_error stable_argsort (Sample.service m) m
             Sample.attributor {[ "features" := Sample.full_features ]}
             Sample.full_features 100 [1 # 2; 1 # 4; 1 # 4]
             eq_refl eq_refl (lookup_singleton_eq _ _) eq_refl eq_refl).
  - reflexivity.
  - simpl. intros [H | [H | [H | []]]]; discriminate.
Defined.

(** X9. For a predicted code that has a descriptor, the body of the
    response is that descriptor with [confidence], [prediction_code] and
    [explanations] set: every other entry (label, severity, remedy) is the
    descriptor's. The body is the very dict that [PREDICTION_MAP] shows
    for the code afterwards, and no other dict of the heap is touched. *)
Theorem listed_code_response_is_the_descriptor
    (argsort : list Q -> list nat) (st : state) (m : Classifier) (ex : Explainer)
    (data : gmap string (gmap string float)) (features : gmap string float)
    (code : Z) (conf : Q) (expl : list string) (l : nat)
    (d : gmap string jvalue) :
  model st = Some m -> explainer st = Some ex ->
  data !! "features" = Some features ->
  diagnose argsort st m ex features = Ok (code, conf, expl) ->
  PREDICTION_MAP st !! code = Some l -> heap st !! l = Some d ->
  let r := fst (predict argsort st (JsonObject data)) in
  let st' := snd (predict argsort st (JsonObject data)) in
  status r = 200%nat /\
  body r = update code conf expl d /\
  (forall k, k <> "explanations" -> k <> "prediction_code" -> k <> "confidence" ->
             body r !! k = d !! k) /\
  descriptor st' code = Some (body r) /\
  (forall l', l' <> l -> heap st' !! l' = heap st !! l').
Proof.
  intros Hm Hex Hf Hd Hl Hh r st'. unfold r, st'.
  rewrite (predict_diagnosed argsort st m ex data features Hm Hex Hf), Hd.
  destruct (assemble_known st code conf expl l d Hl Hh) as [Hb Hheap].
  destruct (assemble_frame st code conf expl) as (_ & _ & _ & _ & Hp).
  split; [apply assemble_status |]. split; [exact Hb |]. split; [| split].
  - intros k H1 H2 H3. rewrite Hb. now apply update_lookup_other.
  - unfold descriptor. rewrite Hp, Hl. simpl. rewrite Hheap, Hb.
    apply lookup_insert_eq.
  - intros l' Hne. rewrite Hheap. now apply lookup_insert_ne.
Qed.

Lemma listed_code_response_is_the_descriptor_witness :
  let r := fst (predict stable_argsort (Sample.service (Sample.classifier 80))
                  Sample.full_request) in
  body r !! "label" = Some (JStr "Severe Lag") /\
  body r !! "severity" = Some (JStr "high").
Proof.
  intros r.
  destruct (listed_code_response_is_the_descriptor stable_argsort
    (Sample.service (Sample.classifier 80)) (Sample.classifier 80)
    Sample.attributor {[ "features" := Sample.full_features ]}
    Sample.full_features 80 (2 # 10)
    [ high_text "Std" "Ps1" (Sample.fz 50) (Sample.fz 10) (Sample.fz 20);
      within_text "Max" "Ps1" (Sample.fz 15);
      within_text "Min" "Ps1" (Sample.fz 12) ]
    2%nat
    (descriptor_dict "Severe Lag" "high"
       ["Schedule valve inspection."; "Check for internal leakage.";
        "Verify solenoid signal."])
    eq_refl eq_refl (lookup_singleton_eq _ _) eq_refl eq_refl eq_refl)
    as (_ & _ & Hk & _).
  fold r in Hk. split; rewrite Hk by discriminate; reflexivity.
Defined.

(** ** The range table and the feature list at start-up *)

Lemma dict_get_set_eq {V} (k : string) (v : V) (d : list (string * V)) :
  dict_get k (dict_set k v d) = Some v.
Proof.
  induction d as [|[k' v'] d IH]; simpl; [now rewrite String.eqb_refl |].
  destruct (String.eqb k k') eqn:E; simpl; now rewrite ?String.eqb_refl, ?E.
Qed.

Lemma dict_get_set_ne {V} (k k' : string) (v : V) (d : list (string * V)) :
  k <> k' -> dict_get k' (dict_set k v d) = dict_get k' d.
Proof.
  intros Hne. induction d as [|[k0 v0] d IH]; simpl.
  - destruct (String.eqb_spec k' k); [congruence | reflexivity].
  - destruct (String.eqb_spec k k0) as [-> | Hk]; simpl.
    + destruct (String.eqb_spec k' k0); [congruence | reflexivity].
    + now rewrite IH.
Qed.

Lemma dict_keys_set_new {V} (k : string) (v : V) (d : list (string * V)) :
  ~ In k (dict_keys d) -> dict_keys (dict_set k v d) = dict_keys d ++ [k].
Proof.
  unfold dict_keys. induction d as [|[k' v'] d IH]; simpl; intros H; [reflexivity |].
  destruct (String.eqb_spec k k') as [-> | Hk]; simpl; [tauto |].
  rewrite IH; [reflexivity | tauto].
Qed.

Lemma dict_get_keys {V} (k : string) (d : list (string * V)) :
  In k (dict_keys d) <-> is_Some (dict_get k d).
Proof.
  unfold dict_keys. induction d as [|[k' v'] d IH]; simpl.
  - split; [intros [] | intros [x H]; discriminate].
  - destruct (String.eqb_spec k k') as [-> | Hk].
    + split; [now eexists | now left].
    + rewrite <- IH. split; [intros [H | H]; [congruence | exact H] | now right].
Qed.

Section RangeTable.

Variable percentile : list float -> Q -> float.

Local Abbreviation quantile_of := (quantile percentile).
Local Abbreviation table_of := (range_table percentile).
Local Abbreviation range_step :=
  (fun (normal_ranges : list (string * (float * float))) (c : string * list float) =>
     dict_set (fst c) (quantile_of (snd c) (5 # 100), quantile_of (snd c) (95 # 100))
              normal_ranges).

Lemma range_fold_keys (nd : table) (acc : list (string * (float * float))) :
  List.NoDup (dict_keys acc ++ map fst nd) ->
  dict_keys (fold_left range_step nd acc) = dict_keys acc ++ map fst nd.
Proof.
  revert acc. induction nd as [|[k col] nd IH]; intros acc Hnd; simpl.
  - now rewrite app_nil_r.
  - assert (Hk : ~ In k (dict_keys acc)).
    { intros Hin. apply List.NoDup_remove_2 in Hnd. apply Hnd.
      apply in_or_app. now left. }
    assert (Hkeys : dict_keys (dict_set k (quantile_of col (5 # 100),
                                           quantile_of col (95 # 100)) acc)
                    = dict_keys acc ++ [k]).
    { now apply dict_keys_set_new. }
    rewrite IH; rewrite Hkeys, <- app_assoc; [reflexivity | exact Hnd].
Qed.

Lemma range_fold_get_other (nd : table) (acc : list (string * (float * float)))
    (name : string) :
  ~ In name (map fst nd) ->
  dict_get name (fold_left range_step nd acc) = dict_get name acc.
Proof.
  revert acc. induction nd as [|[k col] nd IH]; intros acc Hn; simpl; [reflexivity |].
  simpl in Hn. rewrite IH by tauto. apply dict_get_set_ne. tauto.
Qed.

Lemma range_table_keys (normal_data : table) :
  List.NoDup (map fst normal_data) ->
  dict_keys (table_of normal_data) = map fst normal_data.
Proof. intros H. unfold range_table. now rewrite range_fold_keys. Qed.

Lemma range_table_get (normal_data : table) (name : string) (col : list float) :
  List.NoDup (map fst normal_data) -> In (name, col) normal_data ->
  dict_get name (table_of normal_data)
  = Some (quantile_of col (5 # 100), quantile_of col (95 # 100)).
Proof.
  intros Hnd. unfold range_table.
  generalize (@nil (string * (float * float))) as acc.
  induction normal_data as [|[k c] nd IH]; intros acc Hin; [destruct Hin |].
  simpl. inversion Hnd as [|? ? Hk Hnd']; subst.
  destruct Hin as [E | Hin].
  - injection E as -> ->. rewrite range_fold_get_other by exact Hk.
    apply dict_get_set_eq.
  - now apply IH.
Qed.

(** X10. When the column names of the nominal rows are pairwise distinct,
    the range table has exactly one entry per column, in the order of the
    columns, and looking a feature up gives the 5th and the 95th
    percentile of its own column. *)
Theorem range_table_has_every_column
    (normal_data : table) (name : string) (col : list float) :
  List.NoDup (map fst normal_data) ->
  dict_keys (table_of normal_data) = map fst normal_data /\
  (In (name, col) normal_data ->
   dict_get name (table_of normal_data)
   = Some (quantile_of col (5 # 100), quantile_of col (95 # 100))).
Proof.
  intros Hnd. split; [now apply range_table_keys | now apply range_table_get].
Qed.

End RangeTable.

Lemma range_table_has_every_column_witness :
  dict_keys (range_table Sample.percentile
               [("PS1_mean", [Sample.fz 4; Sample.fz 1]); ("PS1_std", [NaN])])
  = ["PS1_mean"; "PS1_std"] /\
  dict_get "PS1_std"
    (range_table Sample.percentile
       [("PS1_mean", [Sample.fz 4; Sample.fz 1]); ("PS1_std", [NaN])])
  = Some (NaN, NaN).
Proof.
  destruct (range_table_has_every_column Sample.percentile
              [("PS1_mean", [Sample.fz 4; Sample.fz 1]); ("PS1_std", [NaN])]
              "PS1_std" [NaN]) as [Hkeys Hget].
  - repeat constructor; simpl; intros H; repeat destruct H as [H | H];
      try discriminate; destruct H.
  - split; [exact Hkeys | apply Hget; simpl; auto].
Defined.

Lemma rmapM_inv {A B} (f : A -> result B) (l : list A) (bs : list B) :
  rmapM f l = Ok bs -> Forall2 (fun a b => f a = Ok b) l bs.
Proof.
  revert bs. induction l as [|a l IH]; simpl; intros bs H.
  - injection H as <-. constructor.
  - destruct (f a) as [b|] eqn:Ha; simpl in H; [| discriminate].
    destruct (rmapM f l) as [bs'|]; simpl in H; [| discriminate].
    injection H as <-. constructor; [exact Ha | now apply IH].
Qed.

Lemma concat_names (tables : list table) :
  map fst (concat tables) = flat_map (map fst) tables.
Proof.
  unfold concat. generalize (fold_right Nat.max 0%nat (map nrows tables)) as n.
  intros n. induction tables as [|t tables IH]; simpl; [reflexivity |].
  rewrite map_app, IH, map_map. reflexivity.
Qed.

Lemma map_cells_names (g : list float -> list float) (df : table) :
  map fst (map (fun c => (fst c, g (snd c))) df) = map fst df.
Proof. rewrite map_map. now apply map_ext. Qed.

Lemma select_rows_names (df nd : table) (mask : list bool) :
  select_rows df mask = Ok nd -> map fst nd = map fst df.
Proof.
  unfold select_rows. destruct (length mask <? nrows df)%nat; [discriminate |].
  intros [= <-]. apply (map_cells_names (fun col => mask_filter col mask)).
Qed.

Lemma nrows_uniform (df : table) (n : nat) :
  df <> [] -> List.Forall (fun c => length (snd c) = n) df -> nrows df = n.
Proof.
  intros Hne H. unfold nrows. induction H as [|c df Hc Hdf IH]; [congruence |].
  simpl. rewrite Hc. destruct df as [|c' df]; simpl in *; [lia |].
  rewrite IH by discriminate. lia.
Qed.

Lemma canonical_features_NoDup : List.NoDup canonical_features.
Proof. apply NoDup_ListNoDup. apply (bool_decide_unpack _). now vm_compute. Qed.

Lemma canonical_features_parts :
  List.Forall (fun name => length (feature_parts name) = 2%nat) canonical_features.
Proof. repeat constructor. Qed.

Lemma dict_get_In {V} (k : string) (v : V) (d : list (string * V)) :
  dict_get k d = Some v -> In (k, v) d.
Proof.
  induction d as [|[k' v'] d IH]; simpl; [discriminate |].
  destruct (String.eqb_spec k k') as [-> | Hk]; [intros [= ->]; now left |].
  intros H. right. now apply IH.
Qed.

Section StartupProperties.

Variables row_mean row_std row_min row_max : list float -> float.
Variable percentile : list float -> Q -> float.

Local Abbreviation features_of := (sensor_features row_mean row_std row_min row_max).
Local Abbreviation app_df := (app_features_df row_mean row_std row_min row_max).
Local Abbreviation train_df := (train_features_df row_mean row_std row_min row_max).
Local Abbreviation ranges_of :=
  (compute_normal_ranges row_mean row_std row_min row_max percentile).
Local Abbreviation start := (startup row_mean row_std row_min row_max percentile).

Lemma features_of_names (s : string) (d : list (list float)) :
  map fst (features_of s d)
  = [s +:+ "_mean"; s +:+ "_std"; s +:+ "_min"; s +:+ "_max"].
Proof. reflexivity. Qed.

Lemma tables_names (data : string -> list (list float)) (sensors : list string) :
  flat_map (map fst) (map (fun s => features_of s (data s)) sensors)
  = flat_map (fun sensor => [sensor +:+ "_mean"; sensor +:+ "_std";
                             sensor +:+ "_min"; sensor +:+ "_max"]) sensors.
Proof. induction sensors as [|s l IH]; simpl; [reflexivity | now rewrite IH]. Qed.

Lemma app_df_ok (files : sensor_files) (data : string -> list (list float)) :
  (forall s, In s sensors_to_process -> files s = Some (Ok (data s))) ->
  app_df files
  = Ok (concat (map (fun s => features_of s (data s)) sensors_to_process)).
Proof.
  intros Hfiles. unfold app_features_df.
  rewrite (rmapM_ok _ (fun s => features_of s (data s))); [reflexivity |].
  intros s Hs. now rewrite (Hfiles s Hs).
Qed.

Lemma nrows_all_tables (data : string -> list (list float)) :
  nrows (concat (map (fun s => features_of s (data s)) sensors_to_process))
  = fold_right Nat.max 0%nat (map (fun s => length (data s)) sensors_to_process).
Proof.
  apply nrows_uniform; [discriminate |].
  replace (fold_right Nat.max 0%nat
             (map (fun s => length (data s)) sensors_to_process))
    with (fold_right Nat.max 0%nat
            (map nrows (map (fun s => features_of s (data s)) sensors_to_process))).
  - apply concat_rows.
  - rewrite map_map. f_equal. apply map_ext. intros s.
    apply nrows_sensor_features.
Qed.

Lemma max_cycles_le (data : string -> list (list float)) (n : nat)
    (sensors : list string) :
  (forall s, In s sensors -> (length (data s) <= n)%nat) ->
  (fold_right Nat.max 0%nat (map (fun s => length (data s)) sensors) <= n)%nat.
Proof.
  induction sensors as [|s l IH]; simpl; intros H; [lia |].
  pose proof (H s (or_introl eq_refl)).
  specialize (IH (fun s' Hs' => H s' (or_intror Hs'))). lia.
Qed.

(** With every file read and a label for every cycle, the range table is
    the table of the rows that the mask keeps. *)
Lemma ranges_of_readable (labels : list Z) (files : sensor_files)
    (data : string -> list (list float)) :
  (forall s, In s sensors_to_process -> files s = Some (Ok (data s))) ->
  (forall s, In s sensors_to_process -> (length (data s) <= length labels)%nat) ->
  ranges_of (Ok labels) files
  = range_table percentile
      (map (fun c => (fst c, mask_filter (snd c) (map (Z.eqb 100) labels)))
           (concat (map (fun s => features_of s (data s)) sensors_to_process))).
Proof.
  intros Hfiles Hlen. unfold compute_normal_ranges. cbn [rbind].
  rewrite (app_df_ok files data Hfiles). cbn [rbind].
  unfold select_rows. rewrite length_map, nrows_all_tables.
  pose proof (max_cycles_le data (length labels) sensors_to_process Hlen) as Hmax.
  apply Nat.ltb_ge in Hmax. now rewrite Hmax.
Qed.

(** X11. When the profile and the six sensor files are read and the
    profile has a label for every cycle, the feature list of the service
    is the list of the 24 names PS1_mean, PS1_std, PS1_min, PS1_max,
    PS2_mean, ... in this order, which is also the order of the columns
    that the training script fits the model on. *)
Theorem feature_list_is_the_training_order
    (joblib_load : result Classifier)
    (TreeExplainer : Classifier -> result Explainer)
    (labels : list Z) (files : sensor_files)
    (data : string -> list (list float)) (st : state) :
  start joblib_load TreeExplainer (Ok labels) files = Ok st ->
  (forall s, In s sensors_to_process -> files s = Some (Ok (data s))) ->
  (forall s, In s sensors_to_process -> (length (data s) <= length labels)%nat) ->
  EXPECTED_FEATURES st = canonical_features /\
  dict_keys (normal_ranges st) = canonical_features /\
  length (EXPECTED_FEATURES st) = 24%nat /\
  exists features_df,
    train_df files = Ok (Some features_df) /\
    map fst features_df = canonical_features.
Proof.
  intros Hstart Hfiles Hlen.
  set (tables := map (fun s => features_of s (data s)) sensors_to_process).
  assert (Hnames : map fst (concat tables) = canonical_features).
  { unfold tables. rewrite concat_names, tables_names. reflexivity. }
  assert (Hkeys : dict_keys (ranges_of (Ok labels) files) = canonical_features).
  { rewrite (ranges_of_readable labels files data Hfiles Hlen). fold tables.
    rewrite range_table_keys;
      rewrite (map_cells_names (fun col => mask_filter col (map (Z.eqb 100) labels))),
              Hnames;
      [reflexivity | apply canonical_features_NoDup]. }
  unfold startup in Hstart.
  destruct (load_model joblib_load TreeExplainer) as [loaded|]; [| discriminate].
  simpl in Hstart. injection Hstart as <-. simpl.
  rewrite Hkeys. repeat split.
  exists (concat tables). split; [| exact Hnames].
  unfold train_features_df.
  now rewrite (train_all_features_ok row_mean row_std row_min row_max files data).
Qed.

End StartupProperties.

Lemma feature_list_is_the_training_order_witness :
  exists st,
    startup Sample.const_one Sample.const_one Sample.const_one Sample.const_one Sample.percentile
      (Ok (Sample.classifier 100)) (fun _ => Ok Sample.attributor)
      (Ok [100; 90]) Sample.even_files = Ok st /\
    EXPECTED_FEATURES st = canonical_features.
Proof.
  eexists. split; [reflexivity |].
  refine (proj1 (feature_list_is_the_training_order Sample.const_one
            Sample.const_one Sample.const_one Sample.const_one Sample.percentile
            (Ok (Sample.classifier 100)) (fun _ => Ok Sample.attributor)
            [100; 90] Sample.even_files
            (fun _ => [[Sample.fz 1; Sample.fz 2]; [Sample.fz 3; Sample.fz 4]])
            _ eq_refl _ _)).
  - intros s _. reflexivity.
  - intros s _. simpl. lia.
Defined.

Lemma rmapM_err {A B} (f : A -> result B) (l : list A) (a : A) :
  In a l -> (exists e, f a = Err e) -> exists e, rmapM f l = Err e.
Proof.
  induction l as [|x l IH]; simpl; intros Hin Ha; [destruct Hin |].
  destruct (f x) as [b|e] eqn:Hx; simpl; [| now exists e].
  destruct Hin as [-> | Hin].
  - destruct Ha as [e He]. congruence.
  - destruct (IH Hin Ha) as [e He]. rewrite He. now exists e.
Qed.

Section StartupFailures.

Variables row_mean row_std row_min row_max : list float -> float.
Variable percentile : list float -> Q -> float.

Local Abbreviation features_of := (sensor_features row_mean row_std row_min row_max).
Local Abbreviation app_df := (app_features_df row_mean row_std row_min row_max).
Local Abbreviation train_df := (train_features_df row_mean row_std row_min row_max).
Local Abbreviation ranges_of :=
  (compute_normal_ranges row_mean row_std row_min row_max percentile).
Local Abbreviation start := (startup row_mean row_std row_min row_max percentile).

Lemma app_df_fails (files : sensor_files) (s : string) :
  In s sensors_to_process ->
  files s = None \/ (exists e, files s = Some (Err e)) ->
  exists e, app_df files = Err e.
Proof.
  intros Hs Hbad. unfold app_features_df.
  destruct (rmapM_err
              (fun sensor =>
                 match files sensor with
                 | None => Err (FileNotFoundError (sensor +:+ ".txt"))
                 | Some r => sensor_data <- r ;;; Ok (features_of sensor sensor_data)
                 end) sensors_to_process s Hs) as [e He].
  - destruct Hbad as [-> | [e ->]]; now eexists.
  - rewrite He. now exists e.
Qed.

(** X12. The range computation is all or nothing. If the profile cannot
    be read, or a sensor file is missing or unreadable, or the profile has
    fewer rows than the feature table, the range table is empty and so is
    the feature list; the module still comes up whenever the model
    loading does. Every request is then handed an empty row. *)
Theorem failed_range_computation_leaves_no_feature
    (joblib_load : result Classifier)
    (TreeExplainer : Classifier -> result Explainer)
    (profile : result (list Z)) (files : sensor_files)
    (loaded : option Classifier * option Explainer) :
  load_model joblib_load TreeExplainer = Ok loaded ->
  (exists e, profile = Err e) \/
  (exists s, In s sensors_to_process /\
             (files s = None \/ exists e, files s = Some (Err e))) \/
  (exists labels data,
     profile = Ok labels /\
     (forall s, In s sensors_to_process -> files s = Some (Ok (data s))) /\
     exists s, In s sensors_to_process /\ (length labels < length (data s))%nat) ->
  exists st,
    start joblib_load TreeExplainer profile files = Ok st /\
    model st = fst loaded /\ explainer st = snd loaded /\
    normal_ranges st = [] /\ EXPECTED_FEATURES st = [] /\
    forall features, DataFrame_row features (EXPECTED_FEATURES st) = [].
Proof.
  intros Hload Hbad.
  assert (Hranges : ranges_of profile files = []).
  { unfold compute_normal_ranges.
    destruct Hbad as [[e ->] | [[s [Hs Hfile]] | (labels & data & -> & Hfiles & s & Hs & Hlt)]].
    - reflexivity.
    - destruct (app_df_fails files s Hs Hfile) as [e He].
      destruct profile; simpl; [now rewrite He | reflexivity].
    - cbn [rbind].
      rewrite (app_df_ok row_mean row_std row_min row_max files data Hfiles).
      cbn [rbind]. unfold select_rows. rewrite length_map.
      rewrite (nrows_all_tables row_mean row_std row_min row_max).
      assert (Hmax : (length labels <
                      fold_right Nat.max 0%nat
                        (map (fun s => length (data s)) sensors_to_process))%nat).
      { pose proof (max_list_ge (map (fun s => length (data s)) sensors_to_process)
                      (length (data s))) as H.
        assert (In (length (data s))
                   (map (fun s => length (data s)) sensors_to_process))
          by (apply in_map_iff; now exists s).
        specialize (H H0). lia. }
      apply Nat.ltb_lt in Hmax. now rewrite Hmax. }
  unfold startup. rewrite Hload. simpl. rewrite Hranges.
  eexists. split; [reflexivity |]. simpl. repeat split.
Qed.

Lemma skipped_sensors (files : sensor_files) (data : string -> list (list float))
    (sensors : list string) :
  (forall s, In s sensors -> files s = None \/ files s = Some (Ok (data s))) ->
  let present := List.filter (has_file files) sensors in
  train_all_features row_mean row_std row_min row_max files sensors
  = Ok (map (fun s => features_of s (data s)) present).
Proof.
  induction sensors as [|s sensors IH]; intros H; simpl; [reflexivity |].
  unfold has_file at 1.
  destruct (H s (or_introl eq_refl)) as [-> | ->]; simpl;
    rewrite IH by (intros s' Hs'; apply H; now right); reflexivity.
Qed.

(** X13. The two scripts treat a missing sensor file differently. The
    training script skips the sensor: it builds its table from the sensors
    that have a file, four columns each, and exits when none has. The
    service instead gives up the whole range computation, so that a model
    trained without a sensor meets an empty feature list. *)
Theorem missing_sensor_file_splits_the_scripts
    (profile : result (list Z)) (files : sensor_files)
    (data : string -> list (list float)) :
  (forall s, In s sensors_to_process ->
             files s = None \/ files s = Some (Ok (data s))) ->
  let present := List.filter (has_file files) sensors_to_process in
  train_df files
  = Ok (match present with
        | [] => None
        | _ => Some (concat (map (fun s => features_of s (data s)) present))
        end) /\
  (present <> sensors_to_process -> ranges_of profile files = []).
Proof.
  intros Hfiles present. split.
  - unfold train_features_df.
    rewrite (skipped_sensors files data sensors_to_process Hfiles).
    cbn [rbind]. subst present.
    generalize (List.filter (has_file files) sensors_to_process) as present.
    intros [|s present]; reflexivity.
  - intros Hne.
    assert (Hmiss : exists s, In s sensors_to_process /\ files s = None).
    { unfold present in Hne. clear -Hne.
      induction sensors_to_process as [|s l IH]; simpl in Hne; [congruence |].
      unfold has_file at 1 in Hne. destruct (files s) eqn:E.
      - destruct IH as [s' [Hs' Hf]]; [congruence |]. exists s'. split; [now right | exact Hf].
      - exists s. split; [now left | exact E]. }
    destruct Hmiss as [s [Hs Hnone]].
    destruct (app_df_fails files s Hs (or_introl Hnone)) as [e He].
    unfold compute_normal_ranges. destruct profile; simpl; [now rewrite He | reflexivity].
Qed.

End StartupFailures.

Lemma failed_range_computation_leaves_no_feature_witness :
  exists st,
    startup Sample.const_one Sample.const_one Sample.const_one Sample.const_one Sample.percentile
      (Ok (Sample.classifier 100)) (fun _ => Ok Sample.attributor)
      (Ok [100]) Sample.even_files = Ok st /\
    EXPECTED_FEATURES st = [].
Proof.
  destruct (failed_range_computation_leaves_no_feature Sample.const_one
              Sample.const_one Sample.const_one Sample.const_one Sample.percentile
              (Ok (Sample.classifier 100)) (fun _ => Ok Sample.attributor)
              (Ok [100]) Sample.even_files
              (Some (Sample.classifier 100), Some Sample.attributor) eq_refl)
    as [st (Hst & _ & _ & _ & He & _)].
  - right. right.
    exists [100], (fun _ => [[Sample.fz 1; Sample.fz 2]; [Sample.fz 3; Sample.fz 4]]).
    split; [reflexivity |]. split; [intros s _; reflexivity |].
    exists "PS1". split; [now left | simpl; lia].
  - exists st. split; [exact Hst | exact He].
Defined.

Lemma missing_sensor_file_splits_the_scripts_witness :
  let files : sensor_files :=
    fun s => if String.eqb s "TS2" then None else Some (Ok [[Sample.fz 1]]) in
  (exists df, train_features_df Sample.const_one Sample.const_one
                Sample.const_one Sample.const_one files = Ok (Some df) /\
              length df = 20%nat) /\
  compute_normal_ranges Sample.const_one Sample.const_one Sample.const_one
    Sample.const_one Sample.percentile (Ok [100]) files = [].
Proof.
  intros files.
  destruct (missing_sensor_file_splits_the_scripts Sample.const_one
              Sample.const_one Sample.const_one Sample.const_one Sample.percentile
              (Ok [100]) files (fun _ => [[Sample.fz 1]])) as [Htrain Hranges].
  - intros s _. unfold files. destruct (String.eqb s "TS2"); auto.
  - split.
    + eexists. split; [exact Htrain | reflexivity].
    + apply Hranges. discriminate.
Defined.

Section StartedService.

Variables row_mean row_std row_min row_max : list float -> float.
Variable percentile : list float -> Q -> float.

Local Abbreviation features_of := (sensor_features row_mean row_std row_min row_max).
Local Abbreviation app_df := (app_features_df row_mean row_std row_min row_max).
Local Abbreviation ranges_of :=
  (compute_normal_ranges row_mean row_std row_min row_max percentile).
Local Abbreviation start := (startup row_mean row_std row_min row_max percentile).

Lemma app_df_names (files : sensor_files) (df : table) :
  app_df files = Ok df -> map fst df = canonical_features.
Proof.
  unfold app_features_df.
  destruct (rmapM _ sensors_to_process) as [tables|] eqn:E; simpl; [| discriminate].
  intros [= <-]. apply rmapM_inv in E. rewrite concat_names.
  unfold canonical_features. induction E as [|s t sensors tables Hs _ IH]; simpl;
    [reflexivity |].
  rewrite IH. f_equal.
  destruct (files s) as [[d|]|]; simpl in Hs; try discriminate.
  now injection Hs as <-.
Qed.

Lemma ranges_of_keys (profile : result (list Z)) (files : sensor_files) :
  dict_keys (ranges_of profile files) = [] \/
  dict_keys (ranges_of profile files) = canonical_features.
Proof.
  unfold compute_normal_ranges.
  destruct profile as [labels|]; simpl; [| now left].
  destruct (app_df files) as [df|] eqn:Hdf; simpl; [| now left].
  destruct (select_rows df (map (Z.eqb 100) labels)) as [nd|] eqn:Hnd; simpl;
    [| now left].
  right. apply select_rows_names in Hnd. apply app_df_names in Hdf.
  rewrite range_table_keys; rewrite Hnd, Hdf;
    [reflexivity | apply canonical_features_NoDup].
Qed.

(** X14. In every service that came up, the feature list is either empty
    or the 24 names of the training order; every listed feature has an
    entry in the range table, and its name splits into exactly a sensor
    and a one-word metric. So, for a listed feature, neither the generic
    sentence without range nor the IndexError of the generator occurs. *)
Theorem started_service_features
    (joblib_load : result Classifier)
    (TreeExplainer : Classifier -> result Explainer)
    (profile : result (list Z)) (files : sensor_files) (st : state) :
  start joblib_load TreeExplainer profile files = Ok st ->
  (EXPECTED_FEATURES st = [] \/ EXPECTED_FEATURES st = canonical_features) /\
  List.Forall (fun name =>
                 is_Some (dict_get name (normal_ranges st)) /\
                 length (feature_parts name) = 2%nat)
              (EXPECTED_FEATURES st) /\
  heap_closed st /\ no_error_key st.
Proof.
  unfold startup. intros H.
  destruct (load_model joblib_load TreeExplainer) as [loaded|]; [| discriminate].
  simpl in H. injection H as <-. simpl.
  split; [apply ranges_of_keys |]. split.
  - apply List.Forall_forall. intros name Hname. split.
    + now apply dict_get_keys.
    + destruct (ranges_of_keys profile files) as [E | E]; rewrite E in Hname;
        [destruct Hname |].
      pose proof canonical_features_parts as Hp.
      rewrite List.Forall_forall in Hp. now apply Hp.
  - split; [apply initial_heap_closed | apply initial_no_error_key].
Qed.

End StartedService.

Lemma started_service_features_witness :
  exists st,
    startup Sample.const_one Sample.const_one Sample.const_one Sample.const_one Sample.percentile
      (Err (FileNotFoundError "hydraulic_model.joblib"))
      (fun _ => Ok Sample.attributor) (Ok [100; 100]) Sample.uneven_files = Ok st /\
    is_Some (dict_get "VS1_max" (normal_ranges st)).
Proof.
  eexists. split; [reflexivity |].
  destruct (started_service_features Sample.const_one Sample.const_one
              Sample.const_one Sample.const_one Sample.percentile
              (Err (FileNotFoundError "hydraulic_model.joblib"))
              (fun _ => Ok Sample.attributor) (Ok [100; 100])
              Sample.uneven_files _ eq_refl) as (_ & Hall & _).
  rewrite List.Forall_forall in Hall. apply (Hall "VS1_max").
  vm_compute. do 23 right. now left.
Defined.

(** ** The confidence string *)

Lemma round_cents_unit (p : Q) :
  (0 <= p)%Q -> (p <= 1)%Q -> 0 <= round_cents p <= 100.
Proof.
  destruct p as [n d]. unfold Qle, round_cents. simpl. intros H0 H1.
  rewrite Z.mul_1_r in H0, H1. rewrite Z.abs_eq by lia.
  assert (Hd : 0 < Z.pos d) by lia.
  pose proof (Z.div_mod (n * 100) (Z.pos d) ltac:(lia)) as Hdm.
  pose proof (Z.mod_pos_bound (n * 100) (Z.pos d) Hd) as Hr.
  assert (Hq0 : 0 <= n * 100 / Z.pos d) by (apply Z.div_pos; lia).
  assert (Hq1 : n * 100 / Z.pos d <= 100).
  { apply Z.div_le_upper_bound; lia. }
  destruct (2 * ((n * 100) mod Z.pos d) ?= Z.pos d) eqn:E.
  - destruct (Z.even (n * 100 / Z.pos d)); [lia |].
    apply Z.compare_eq in E. nia.
  - lia.
  - apply Z.compare_gt_iff in E. nia.
Qed.

Lemma round_cents_close (q : Q) :
  (inject_Z (round_cents q) - (1 # 2) <= 100 * Qabs q)%Q /\
  (100 * Qabs q <= inject_Z (round_cents q) + (1 # 2))%Q.
Proof.
  destruct q as [n d]. unfold Qle, round_cents. simpl.
  set (a := Z.abs n).
  assert (Hd : 0 < Z.pos d) by lia.
  pose proof (Z.div_mod (a * 100) (Z.pos d) ltac:(lia)) as Hdm.
  pose proof (Z.mod_pos_bound (a * 100) (Z.pos d) Hd) as Hr.
  rewrite !Pos.mul_1_l. change (Z.pos 2) with 2.
  set (k := a * 100 / Z.pos d) in *. set (r := (a * 100) mod Z.pos d) in *.
  destruct (Z.compare_spec (2 * r) (Z.pos d)) as [E | E | E];
    try destruct (Z.even k); split; nia.
Qed.

Lemma rendered_cents_length (c : Z) :
  0 <= c <= 100 ->
  String.length (dec_of_N (Z.to_N (c / 100)) +:+ "." +:+ two_digits (c mod 100))
  = 4%nat.
Proof.
  intros Hc.
  assert (H : forallb (fun n =>
                let c := Z.of_nat n in
                Nat.eqb (String.length (dec_of_N (Z.to_N (c / 100)) +:+ "."
                                        +:+ two_digits (c mod 100))) 4)
              (seq 0 101) = true) by (vm_compute; reflexivity).
  rewrite forallb_forall in H. specialize (H (Z.to_nat c)).
  rewrite Z2Nat.id in H by lia. apply Nat.eqb_eq, H, in_seq. lia.
Qed.

(** X16. For a probability, that is a confidence between 0 and 1, the
    reported string has exactly four characters, without sign, and shows
    the hundredth nearest to the probability: the number of hundredths it
    prints is between 0 and 100 and differs from 100 times the probability
    by at most one half. *)
Theorem confidence_string_of_a_probability (p : Q) :
  (0 <= p)%Q -> (p <= 1)%Q ->
  let c := round_cents p in
  0 <= c <= 100 /\
  fmt2 (Fin p) = dec_of_N (Z.to_N (c / 100)) +:+ "." +:+ two_digits (c mod 100) /\
  String.length (fmt2 (Fin p)) = 4%nat /\
  (inject_Z c - (1 # 2) <= 100 * p)%Q /\ (100 * p <= inject_Z c + (1 # 2))%Q.
Proof.
  intros H0 H1 c. pose proof (round_cents_unit p H0 H1) as Hc. fold c in Hc.
  assert (Hfmt : fmt2 (Fin p)
                 = dec_of_N (Z.to_N (c / 100)) +:+ "." +:+ two_digits (c mod 100)).
  { unfold fmt2. fold c.
    assert (Hn : (Qnum p <? 0) = false).
    { apply Z.ltb_ge. destruct p as [n d]. unfold Qle in H0. simpl in *. lia. }
    now rewrite Hn. }
  split; [exact Hc |]. split; [exact Hfmt |].
  split; [rewrite Hfmt; now apply rendered_cents_length |].
  pose proof (round_cents_close p) as Hclose. fold c in Hclose.
  rewrite (Qabs_pos p H0) in Hclose. exact Hclose.
Qed.

Lemma confidence_string_of_a_probability_witness :
  fmt2 (Fin (1 # 8)) = "0.12" /\ String.length (fmt2 (Fin (1 # 8))) = 4%nat.
Proof.
  destruct (confidence_string_of_a_probability (1 # 8)) as (_ & _ & Hlen & _);
    [discriminate | discriminate |].
  split; [reflexivity | exact Hlen].
Defined.

(** ** The handler: which requests are refused, and how *)

Lemma array_has_features (items : list (option string)) :
  existsb (fun x => match x with
                    | Some s => String.eqb s "features"
                    | None => false
                    end) items = true
  <-> In (Some "features") items.
Proof.
  rewrite existsb_exists. split.
  - intros [[s|] [Hin H]]; [| discriminate].
    apply String.eqb_eq in H. now subst.
  - intros H. exists (Some "features"). split; [exact H | reflexivity].
Qed.

(** X17. Status 400 is the answer exactly when model and explainer are
    loaded and the parsed body is false in a condition (null, false, zero,
    the empty string, array or object) or is a string, an array or an
    object that does not contain ['features']. A body that cannot be
    parsed is answered with 500 and the parser's message; so is, with a
    [TypeError], a non-zero number or [true]. *)
Theorem status_400_characterised
    (argsort : list Q -> list nat) (st : state) (req : request) :
  (status (fst (predict argsort st req)) = 400%nat <->
   is_Some (model st) /\ is_Some (explainer st) /\ lacks_features req) /\
  (is_Some (model st) -> is_Some (explainer st) ->
   match req with
   | GetJsonRaises e =>
       predict argsort st req
       = ({| body := {[ "error" := JStr (exn_str e) ]}; status := 500 |}, st)
   | JsonBool true =>
       status (fst (predict argsort st req)) = 500%nat
   | JsonNumber _ x =>
       is_zero x = false -> status (fst (predict argsort st req)) = 500%nat
   | _ => True
   end).
Proof.
  split.
  - unfold predict, bad_request, server_error.
    destruct (model st) as [m|], (explainer st) as [ex|]; simpl;
      try solve [split; [discriminate
                       | intros (H1 & H2 & _);
                         first [now destruct H1 | now destruct H2]]].
    assert (Hyes : forall P : Prop, P -> 400%nat = 400%nat <->
              is_Some (Some m) /\ is_Some (Some ex) /\ P).
    { intros P HP. split; [intros _ | reflexivity]. repeat split; eauto. }
    assert (Hno : forall P : Prop, ~ P -> 500%nat = 400%nat <->
              is_Some (Some m) /\ is_Some (Some ex) /\ P).
    { intros P HP. split; [discriminate | intros (_ & _ & H); contradiction]. }
    destruct req as [e | | [|] | integral x | s | items | data]; simpl.
    + apply Hno. tauto.
    + now apply Hyes.
    + apply Hno. discriminate.
    + now apply Hyes.
    + destruct (is_zero x) eqn:E; simpl; [now apply Hyes | apply Hno; congruence].
    + destruct (Str.containsb "features" s) eqn:E; simpl.
      * apply Hno. intros H. apply H. now apply containsb_spec.
      * apply Hyes. intros H. apply containsb_spec in H. congruence.
    + destruct (existsb _ items) eqn:E; simpl.
      * apply Hno. intros H. apply H. now apply array_has_features.
      * apply Hyes. intros H. apply array_has_features in H. congruence.
    + destruct (data !! "features") as [features|] eqn:Hf; simpl.
      * destruct (diagnose argsort st m ex features) as [[[c q] e] | e];
          [rewrite assemble_status |]; simpl;
          (split; [discriminate | intros (_ & _ & H); discriminate]).
      * now apply Hyes.
  - intros [m Hm] [ex Hex]. unfold predict, server_error. rewrite Hm, Hex.
    destruct req as [e | | [|] | integral x | s | items | data]; try exact I;
      try reflexivity.
    intros E. now rewrite E.
Qed.

Lemma status_400_characterised_witness :
  status (fst (predict stable_argsort (Sample.service (Sample.classifier 100))
                 (JsonArray [Some "other"; None]))) = 400%nat.
Proof.
  apply (proj1 (status_400_characterised stable_argsort
                  (Sample.service (Sample.classifier 100))
                  (JsonArray [Some "other"; None]))).
  split; [now eexists |]. split; [now eexists |].
  simpl. intros [H | [H | []]]; discriminate.
Defined.

Lemma explain_error (st : state) (features : gmap string float)
    (top : list nat) (e : exn) :
  explain st (DataFrame_row features (EXPECTED_FEATURES st)) top = Err e ->
  e = list_index_error.
Proof.
  unfold explain. induction top as [|i top IH]; simpl; [discriminate |].
  destruct (explain_one st (DataFrame_row features (EXPECTED_FEATURES st)) i)
    as [text|e1] eqn:Hone; simpl.
  - destruct (rmapM _ top) as [texts|e2]; simpl; [discriminate |].
    intros [= <-]. now apply IH.
  - intros [= <-]. unfold explain_one, item in Hone.
    destruct (EXPECTED_FEATURES st !! i) as [name|] eqn:Hname; simpl in Hone;
      [| now injection Hone as <-].
    unfold DataFrame_row in Hone. rewrite list_lookup_fmap, Hname in Hone.
    simpl in Hone. unfold generate_text_explanation in Hone.
    destruct (feature_parts name) as [|sensor rest]; [now injection Hone as <- |].
    destruct (dict_get name (normal_ranges st)) as [[lo hi]|]; [| discriminate].
    destruct (ltb _ lo); [discriminate |]. destruct (gtb _ hi); discriminate.
Qed.

(** X18. When the attributor returns a score for an index beyond the
    feature list and this index is among the three selected, no response
    is assembled: the request is answered with status 500 and the message
    "list index out of range", and the state is left as it was. *)
Theorem score_beyond_the_feature_list_is_an_error
    (argsort : list Q -> list nat) (st : state) (m : Classifier) (ex : Explainer)
    (data : gmap string (gmap string float)) (features : gmap string float)
    (code : Z) (proba : list Q) (ci : nat) (p : Q) (shap : list Q) (i : nat) :
  model st = Some m -> explainer st = Some ex ->
  data !! "features" = Some features ->
  let features_df := DataFrame_row features (EXPECTED_FEATURES st) in
  model_predict m features_df = Ok code ->
  predict_proba m features_df = Ok proba ->
  index_of code (classes_ m) = Some ci ->
  proba !! ci = Some p ->
  ex features_df ci = Ok shap ->
  In i (top_indices argsort shap) ->
  (length (EXPECTED_FEATURES st) <= i)%nat ->
  status (fst (predict argsort st (JsonObject data))) = 500%nat /\
  body (fst (predict argsort st (JsonObject data)))
  = {[ "error" := JStr "list index out of range" ]} /\
  snd (predict argsort st (JsonObject data)) = st.
Proof.
  intros Hm Hex Hf row Hp Hpp Hci Hconf Hshap Hi Hlen.
  rewrite (predict_diagnosed argsort st m ex data features Hm Hex Hf).
  assert (Hfail : exists e, explain st row (top_indices argsort shap) = Err e).
  { unfold explain. apply (rmapM_err _ _ i Hi).
    unfold explain_one, item.
    rewrite (lookup_ge_None_2 (EXPECTED_FEATURES st) i) by lia. now eexists. }
  destruct Hfail as [e He].
  pose proof (explain_error st features _ e He) as ->.
  assert (Hd : diagnose argsort st m ex features = Err list_index_error).
  { unfold diagnose. fold row. rewrite Hp, Hpp. simpl.
    unfold where_first. rewrite Hci. simpl. unfold item. rewrite Hconf. simpl.
    rewrite Hshap. simpl. now rewrite He. }
  rewrite Hd. simpl. repeat split.
Qed.

Lemma score_beyond_the_feature_list_is_an_error_witness :
  let st := {| model := Some (Sample.classifier 100);
               explainer := Some Sample.attributor;
               normal_ranges := []; EXPECTED_FEATURES := ["PS1_mean"];
               heap := initial_heap; PREDICTION_MAP := initial_PREDICTION_MAP |} in
  status (fst (predict stable_argsort st Sample.full_request)) = 500%nat.
Proof.
  intros st.
  refine (proj1 (score_beyond_the_feature_list_is_an_error stable_argsort st
            (Sample.classifier 100) Sample.attributor
            {[ "features" := Sample.full_features ]} Sample.full_features
            100 [1 # 10; 2 # 10; 4 # 10; 3 # 10] 3%nat (3 # 10)
            Sample.shap_values 3%nat eq_refl eq_refl (lookup_singleton_eq _ _)
            eq_refl eq_refl eq_refl eq_refl eq_refl _ _)).
  - vm_compute. right. now left.
  - simpl. lia.
Defined.

(** ** The two claims that the code does not meet as stated *)

(** C1, as stated, fails: the request names one feature, the service has
    five, and the answer is a success with three explanations, not with
    min(3, 1) = 1. *)
Lemma one_name_request_gets_three_explanations :
  let st := Sample.service (Sample.classifier 100) in
  let features : gmap string float := {[ "PS1_mean" := Sample.fz 5 ]} in
  let r := fst (predict stable_argsort st
                  (JsonObject {[ "features" := features ]})) in
  size features = 1%nat /\
  length (EXPECTED_FEATURES st) = 5%nat /\
  status r = 200%nat /\
  exists explanations,
    body r !! "explanations" = Some (JList explanations) /\
    length explanations = 3%nat /\
    length explanations <> Nat.min 3 (size features).
Proof.
  cbv zeta. split; [reflexivity |]. split; [reflexivity |].
  split; [vm_compute; reflexivity |].
  eexists. split; [vm_compute; reflexivity |].
  split; [reflexivity |]. vm_compute. discriminate.
Qed.

Lemma mask_filter_none (col : list float) (mask : list bool) :
  (forall b, In b mask -> b = false) -> mask_filter col mask = [].
Proof.
  revert col. induction mask as [|b mask IH]; intros col H; destruct col as [|x col];
    simpl; try reflexivity.
  rewrite (H b (or_introl eq_refl)). apply IH. intros b' Hb'. apply H. now right.
Qed.

Section NoNominalCycle.

Variables row_mean row_std row_min row_max : list float -> float.
Variable percentile : list float -> Q -> float.

Local Abbreviation features_of := (sensor_features row_mean row_std row_min row_max).
Local Abbreviation ranges_of :=
  (compute_normal_ranges row_mean row_std row_min row_max percentile).

(** C4, on the code. When no cycle is labelled 100, whatever the readings
    and whatever pandas computes elsewhere, the range table still gets an
    entry for each of the 24 features, with NaN for both bounds, for which
    lower <= upper is false. The entry is there, so the generator is never
    given the absent range that its generic sentence is written for: it
    answers with the within-range sentence for every value. *)
Theorem no_nominal_cycle_gives_nan_ranges
    (labels : list Z) (files : sensor_files)
    (data : string -> list (list float)) :
  (forall label, In label labels -> label <> 100) ->
  (forall s, In s sensors_to_process -> files s = Some (Ok (data s))) ->
  (forall s, In s sensors_to_process -> (length (data s) <= length labels)%nat) ->
  let normal_ranges := ranges_of (Ok labels) files in
  dict_keys normal_ranges = canonical_features /\
  leb NaN NaN = false /\
  forall name, In name canonical_features ->
    dict_get name normal_ranges = Some (NaN, NaN) /\
    forall value, exists sensor metric,
      generate_text_explanation name value (dict_get name normal_ranges)
      = Ok (within_text metric sensor value).
Proof.
  intros Hlabels Hfiles Hlen normal_ranges. unfold normal_ranges.
  rewrite (ranges_of_readable row_mean row_std row_min row_max percentile
             labels files data Hfiles Hlen).
  set (df := concat (map (fun s => features_of s (data s)) sensors_to_process)).
  set (mask := map (Z.eqb 100) labels).
  assert (Hmask : forall b, In b mask -> b = false).
  { intros b Hb. apply in_map_iff in Hb as [label [<- Hl]].
    apply Z.eqb_neq. intros E. now apply (Hlabels label Hl). }
  assert (Hnames : map fst (map (fun c => (fst c, mask_filter (snd c) mask)) df)
                   = canonical_features).
  { rewrite (map_cells_names (fun col => mask_filter col mask)).
    unfold df. rewrite concat_names.
    apply (tables_names row_mean row_std row_min row_max). }
  split; [| split; [reflexivity |]].
  - rewrite range_table_keys; rewrite Hnames;
      [reflexivity | apply canonical_features_NoDup].
  - intros name Hname.
    assert (Hget : dict_get name
                     (range_table percentile
                        (map (fun c => (fst c, mask_filter (snd c) mask)) df))
                   = Some (NaN, NaN)).
    { rewrite (range_table_get percentile _ name []).
      - reflexivity.
      - rewrite Hnames. apply canonical_features_NoDup.
      - rewrite <- Hnames in Hname. apply in_map_iff in Hname as [[n col] [<- Hin]].
        apply in_map_iff in Hin as [c [E Hc]]. injection E as <- <-.
        rewrite (mask_filter_none (snd c) mask Hmask).
        apply in_map_iff. exists c. split; [| exact Hc].
        now rewrite (mask_filter_none (snd c) mask Hmask). }
    split; [exact Hget |]. intros value. rewrite Hget.
    pose proof canonical_features_parts as Hparts.
    rewrite List.Forall_forall in Hparts. specialize (Hparts name Hname).
    unfold generate_text_explanation.
    destruct (feature_parts name) as [|sensor [|metric [|x rest]]];
      try discriminate.
    exists sensor, metric.
    rewrite (ltb_nan value NaN) by now right.
    unfold gtb. now rewrite (ltb_nan NaN value) by now left.
Qed.

End NoNominalCycle.

Lemma no_nominal_cycle_gives_nan_ranges_witness :
  let normal_ranges :=
    compute_normal_ranges Sample.const_one Sample.const_one Sample.const_one
      Sample.const_one Sample.percentile (Ok [90; 80]) Sample.even_files in
  dict_get "PS1_mean" normal_ranges = Some (NaN, NaN) /\
  generate_text_explanation "PS1_mean" (Sample.fz 50)
    (dict_get "PS1_mean" normal_ranges)
  = Ok (within_text "Mean" "Ps1" (Sample.fz 50)).
Proof.
  intros normal_ranges.
  destruct (no_nominal_cycle_gives_nan_ranges Sample.const_one Sample.const_one
              Sample.const_one Sample.const_one Sample.percentile
              [90; 80] Sample.even_files
              (fun _ => [[Sample.fz 1; Sample.fz 2]; [Sample.fz 3; Sample.fz 4]]))
    as (_ & _ & Hall).
  - intros label [<- | [<- | []]]; discriminate.
  - intros s _. reflexivity.
  - intros s _. simpl. lia.
  - destruct (Hall "PS1_mean") as [Hget _]; [now left |].
    fold normal_ranges in Hget. split; [exact Hget |]. rewrite Hget. reflexivity.
Defined.
